(** * VerdantView: file-health analysis and garden view model

    A shallow embedding of [src/fileAnalyzer.ts] (class [FileAnalyzer]) and
    of [src/gardenProvider.ts] (class [GardenProvider] with its item
    classes), followed by the properties of the health classifier, the
    view-model builder, the report generator and the change debouncer.

    Conventions of the embedding.
    - JavaScript numbers that the program only uses as integers (sizes,
      counts, millisecond time stamps, thresholds) are [Z]; [Math.floor]
      of a quotient by a positive constant is [Z.div].
    - Strings are [string]: the sequence of UTF-8 bytes of the JavaScript
      string.  The regular expressions of the analyser only mention ASCII
      characters, and neither the [i] flag (without [u]) nor [\b] relates a
      non-ASCII code unit to an ASCII one, so matching over the bytes
      counts what matching over the UTF-16 code units counts.
    - The host (VS Code workspace, file system, clock, timers, collation)
      is an explicit [Host] record and explicit state; the provider's
      mutable fields are a [Provider] record that is passed along. *)

From Stdlib Require Import ZArith Lia Ascii String Sorted Permutation.
From stdpp Require Import base list strings gmap pretty.

Local Open Scope string_scope.
Local Open Scope Z_scope.

(** ** Data model ([fileAnalyzer.ts], lines 5-19) *)

Inductive Health := healthy | warning | critical.

Global Instance Health_eq_dec : EqDecision Health.
Proof. solve_decision. Defined.

Record FileMetrics := mkFileMetrics {
  lines : Z;
  size : Z;
  complexity : Z;
  lastModified : Z;          (* [Date], as milliseconds since the epoch *)
  type : string;
  health : Health;
  issues : list string
}.

Record Level := mkLevel { lvl_warning : Z; lvl_critical : Z }.

Record HealthThresholds := mkThresholds {
  th_complexity : Level;
  th_size : Level;
  th_age : Level
}.

(** The default of [getHealthThresholds]. *)
Definition defaultThresholds : HealthThresholds :=
  {| th_complexity := mkLevel 10 20;
     th_size := mkLevel 500 1000;
     th_age := mkLevel 30 90 |}.

(** The name of a health tier, as the string the program stores. *)
Definition health_name (h : Health) : string :=
  match h with
  | healthy => "healthy"
  | warning => "warning"
  | critical => "critical"
  end.

(** Template-literal rendering of an integer: [`${n}`]. *)
Definition show (n : Z) : string := pretty n.

(** ** MetricExtractor: [calculateComplexity] (lines 137-183) *)

Module Regex.

(** [\w] without the [u] flag: ASCII letters, digits and underscore. *)
Definition is_word (c : ascii) : bool :=
  let n := N_of_ascii c in
  ((48 <=? n) && (n <=? 57) || (65 <=? n) && (n <=? 90)
   || (97 <=? n) && (n <=? 122) || (n =? 95))%N.

(** Canonicalisation of the [i] flag on ASCII: upper case folds to lower
    case, every other byte is left alone. *)
Definition fold_case (c : ascii) : ascii :=
  let n := N_of_ascii c in
  if ((65 <=? n) && (n <=? 90))%N then ascii_of_N (n + 32) else c.

Definition is_word_opt (o : option ascii) : bool :=
  match o with Some c => is_word c | None => false end.

Definition head (s : string) : option ascii :=
  match s with String c _ => Some c | EmptyString => None end.

(** [\b] between the character before the position and the one at it. *)
Definition boundary (prev next : option ascii) : bool :=
  xorb (is_word_opt prev) (is_word_opt next).

(** Case-insensitive match of the literal [kw] at the start of [s]; the
    result is the last character matched (or [prev] for an empty literal)
    and what follows the match. *)
Fixpoint literal_ci (kw : string) (prev : option ascii) (s : string)
  : option (option ascii * string) :=
  match kw with
  | EmptyString => Some (prev, s)
  | String k kw' =>
      match s with
      | EmptyString => None
      | String c s' =>
          if bool_decide (fold_case k = fold_case c)
          then literal_ci kw' (Some c) s'
          else None
      end
  end.

(** [/\bkw\b/i] at one position: the length of the match, if any. *)
Definition keyword (kw : string) (prev : option ascii) (s : string)
  : option nat :=
  if boundary prev (head s) then
    match literal_ci kw prev s with
    | Some (last, rest) =>
        if boundary last (head rest) then Some (String.length kw) else None
    | None => None
    end
  else None.

(** [/=>|{|}|\[|\]/] at one position: alternatives tried left to right. *)
Definition punctuation (_ : option ascii) (s : string) : option nat :=
  match s with
  | String "=" (String ">" _) => Some 2%nat
  | String "{" _ => Some 1%nat
  | String "}" _ => Some 1%nat
  | String "[" _ => Some 1%nat
  | String "]" _ => Some 1%nat
  | _ => None
  end.

(** [content.match(re)] with the [g] flag: the scan tries the pattern at
    the current index; after a match it resumes behind the match,
    otherwise at the next index.  [skip] counts the characters of the
    last match that are still to be passed over.  The result is the
    number of matches ([matches.length], or 0 when [match] gives
    [null]). *)
Fixpoint count_from (re : option ascii -> string -> option nat)
    (skip : nat) (prev : option ascii) (s : string) : Z :=
  match s with
  | EmptyString => 0
  | String c s' =>
      match skip with
      | S k => count_from re k (Some c) s'
      | O =>
          match re prev s with
          | Some len => 1 + count_from re (Nat.pred len) (Some c) s'
          | None => count_from re 0 (Some c) s'
          end
      end
  end.

Definition count (re : option ascii -> string -> option nat) (s : string) : Z :=
  count_from re 0 None s.

End Regex.

(** The twelve patterns of [complexityPatterns]. *)
Definition complexityPatterns : list (option ascii -> string -> option nat) :=
  [ Regex.keyword "if"; Regex.keyword "else"; Regex.keyword "for";
    Regex.keyword "while"; Regex.keyword "switch"; Regex.keyword "case";
    Regex.keyword "try"; Regex.keyword "catch"; Regex.keyword "function";
    Regex.keyword "class"; Regex.keyword "interface"; Regex.punctuation ].

(** The [switch (ext)] of [calculateComplexity]. *)
Definition languagePatterns (ext : string)
  : list (option ascii -> string -> option nat) :=
  if bool_decide (ext = ".ts") || bool_decide (ext = ".js")
     || bool_decide (ext = ".tsx") || bool_decide (ext = ".jsx")
  then [ Regex.keyword "async"; Regex.keyword "await"; Regex.keyword "Promise" ]
  else if bool_decide (ext = ".py")
  then [ Regex.keyword "def"; Regex.keyword "class"; Regex.keyword "except" ]
  else [].

(** The running total before the final [Math.max]. *)
Definition rawComplexity (content ext : string) : Z :=
  let basic :=
    foldl (fun acc re => acc + Regex.count re content) 0 complexityPatterns in
  foldl (fun acc re => acc + Regex.count re content) basic (languagePatterns ext).

Definition calculateComplexity (content ext : string) : Z :=
  Z.max 1 (rawComplexity content ext / 10).

(** [text.split('\n').length]: one more than the number of line feeds. *)
Fixpoint countLines (text : string) : Z :=
  match text with
  | EmptyString => 1
  | String c text' =>
      (if bool_decide (c = "010"%char) then 1 else 0) + countLines text'
  end.

(** ** MetricExtractor: [getFileType] (lines 22-95 and 185-189) *)

Definition FILE_TYPE_ICONS : list (string * string) :=
  [ (".ts", "typescript"); (".js", "javascript"); (".tsx", "react");
    (".jsx", "react"); (".py", "python"); (".java", "java"); (".cpp", "cpp");
    (".c", "c"); (".cs", "csharp"); (".php", "php"); (".rb", "ruby");
    (".go", "go"); (".rs", "rust"); (".swift", "swift"); (".kt", "kotlin");
    (".scala", "scala"); (".dart", "dart");
    (".html", "html"); (".css", "css"); (".scss", "sass"); (".sass", "sass");
    (".less", "less"); (".vue", "vue"); (".svelte", "svelte");
    (".json", "json"); (".xml", "xml"); (".yaml", "yaml"); (".yml", "yaml");
    (".toml", "toml"); (".csv", "csv");
    (".md", "markdown"); (".txt", "text"); (".rst", "text"); (".tex", "latex");
    (".env", "settings"); (".ini", "settings"); (".conf", "settings");
    (".config", "settings");
    (".dockerfile", "docker"); ("dockerfile", "docker");
    (".jenkinsfile", "jenkins"); ("makefile", "make"); ("package.json", "npm");
    ("cargo.toml", "rust"); ("pom.xml", "java"); ("build.gradle", "gradle");
    (".png", "image"); (".jpg", "image"); (".jpeg", "image"); (".gif", "image");
    (".svg", "image"); (".ico", "image");
    (".sql", "database"); (".db", "database"); (".sqlite", "database");
    (".log", "log"); (".lock", "lock") ].

(** [Map.prototype.get] on a map built from a list of entries whose keys
    are pairwise distinct. *)
Fixpoint map_get (m : list (string * string)) (k : string) : option string :=
  match m with
  | [] => None
  | (k', v) :: m' => if bool_decide (k' = k) then Some v else map_get m' k
  end.

(** [a || b] on a possibly undefined string: the empty string is falsy. *)
Definition or_else (a : option string) (b : string) : string :=
  match a with
  | Some v => if bool_decide (v = "") then b else v
  | None => b
  end.

Definition getFileType (ext basename : string) : string :=
  or_else (map_get FILE_TYPE_ICONS ext)
          (or_else (map_get FILE_TYPE_ICONS basename) "file").

(** ** HealthClassifier: [assessHealth] (lines 200-251)

    The body updates two locals, [healthScore] and [issues], in three
    consecutive checks; they are threaded as a pair. *)

Definition msPerDay : Z := 1000 * 60 * 60 * 24.

Definition daysSinceModified (now lastModified : Z) : Z :=
  (now - lastModified) / msPerDay.

Definition sizeKB (size : Z) : Z := size / 1024.

Definition Assessment : Type := Z * list string.

(** [issues.push(s)]. *)
Definition push (issues : list string) (s : string) : list string :=
  (issues ++ [s])%list.

Definition checkComplexity (complexity : Z) (th : HealthThresholds)
    (st : Assessment) : Assessment :=
  let '(healthScore, issues) := st in
  if lvl_critical (th_complexity th) <=? complexity then
    (healthScore + 2, push issues
       ("High complexity (" +:+ show complexity +:+ ")"))
  else if lvl_warning (th_complexity th) <=? complexity then
    (healthScore + 1, push issues
       ("Moderate complexity (" +:+ show complexity +:+ ")"))
  else st.

Definition checkSize (sizeKB : Z) (th : HealthThresholds)
    (st : Assessment) : Assessment :=
  let '(healthScore, issues) := st in
  if lvl_critical (th_size th) <=? sizeKB then
    (healthScore + 2, push issues
       ("Large file (" +:+ show sizeKB +:+ "KB)"))
  else if lvl_warning (th_size th) <=? sizeKB then
    (healthScore + 1, push issues
       ("Medium file (" +:+ show sizeKB +:+ "KB)"))
  else st.

Definition checkAge (days : Z) (th : HealthThresholds)
    (st : Assessment) : Assessment :=
  let '(healthScore, issues) := st in
  if lvl_critical (th_age th) <=? days then
    (healthScore + 1, push issues
       ("Not modified for " +:+ show days +:+ " days"))
  else if lvl_warning (th_age th) <=? days then
    (healthScore, push issues
       ("Last modified " +:+ show days +:+ " days ago"))
  else st.

(** The locals after the three checks; [now] is the [new Date()] of the
    call.  [lines] is a parameter of the source function that the body
    never reads. *)
Definition assessState (now lines size complexity lastModified : Z)
    (th : HealthThresholds) : Assessment :=
  checkAge (daysSinceModified now lastModified) th
    (checkSize (sizeKB size) th
       (checkComplexity complexity th (0, []))).

Definition healthScore (now lines size complexity lastModified : Z)
    (th : HealthThresholds) : Z :=
  fst (assessState now lines size complexity lastModified th).

Definition verdict (healthScore : Z) : Health :=
  if 3 <=? healthScore then critical
  else if 1 <=? healthScore then warning
  else healthy.

Definition assessHealth (now lines size complexity lastModified : Z)
    (th : HealthThresholds) : Health * list string :=
  let '(healthScore, issues) :=
    assessState now lines size complexity lastModified th in
  (verdict healthScore, issues).

(** ** The host, and [analyzeFile] (lines 97-135) *)

(** A value caught by [catch (error)]: an [Error] with its message, or
    anything else. *)
Inductive Thrown :=
| ErrorObject (message : string)
| OtherValue.

(** A computation that may throw. *)
Definition Try (A : Type) : Type := Thrown + A.

Definition ret {A} (a : A) : Try A := inr a.

Definition bind {A B} (m : Try A) (k : A -> Try B) : Try B :=
  match m with
  | inl e => inl e
  | inr a => k a
  end.

Notation "x <- m ;; k" := (bind m (fun x => k))
  (at level 100, m at next level, right associativity).

(** [try { body } catch (error) { handler }]. *)
Definition try_catch {A} (body : Try A) (handler : Thrown -> A) : A :=
  match body with
  | inl e => handler e
  | inr a => a
  end.

(** A [vscode.Uri] with what the program reads from it.  The functions of
    Node's [path] module and [String.prototype.toLowerCase] are library
    code; their results on [uri.fsPath] are fields. *)
Record Uri := mkUri {
  uri_toString : string;     (* [uri.toString()], the cache key *)
  uri_basename : string;     (* [path.basename(uri.fsPath)] *)
  uri_dirname : string;      (* [path.dirname(uri.fsPath)] *)
  uri_ext : string;          (* [path.extname(uri.fsPath).toLowerCase()] *)
  uri_basename_lc : string   (* [path.basename(uri.fsPath).toLowerCase()] *)
}.

Record FileStat := mkStat {
  stat_size : Z;
  stat_mtime : Z
}.

(** What the program asks of its environment during one scan. *)
Record Host := mkHost {
  now : Z;                       (* [new Date()]: one scan is one instant *)
  healthThresholds : HealthThresholds;          (* [getHealthThresholds()] *)
  fs_stat : string -> Try FileStat;             (* [workspace.fs.stat] *)
  fs_readFile : string -> Try string;           (* [readFile], decoded *)
  localeCompare : string -> string -> Z         (* [a.localeCompare(b)] *)
}.

Definition failureMessage (error : Thrown) : string :=
  "Failed to analyze: " +:+
  match error with
  | ErrorObject message => message
  | OtherValue => "Unknown error"
  end.

(** The record of the [catch] branch. *)
Definition sentinel (h : Host) (error : Thrown) : FileMetrics :=
  {| lines := 0;
     size := 0;
     complexity := 0;
     lastModified := now h;
     type := "unknown";
     health := critical;
     issues := [failureMessage error] |}.

(** The [try] block. *)
Definition analyzeFile_body (h : Host) (uri : Uri) : Try FileMetrics :=
  stat <- fs_stat h (uri_toString uri) ;;
  text <- fs_readFile h (uri_toString uri) ;;
  let ext := uri_ext uri in
  let basename := uri_basename_lc uri in
  let lines := countLines text in
  let size := stat_size stat in
  let lastModified := stat_mtime stat in
  let complexity := calculateComplexity text ext in
  let type := getFileType ext basename in
  let thresholds := healthThresholds h in
  let '(health, issues) :=
    assessHealth (now h) lines size complexity lastModified thresholds in
  ret {| lines := lines; size := size; complexity := complexity;
         lastModified := lastModified; type := type;
         health := health; issues := issues |}.

Definition analyzeFile (h : Host) (uri : Uri) : FileMetrics :=
  try_catch (analyzeFile_body h uri) (sentinel h).

(** ** View model ([gardenProvider.ts]) *)

Inductive GroupBy := by_none | by_type | by_health | by_folder.

Inductive HealthFilter := all | only (h : Health).

Global Instance GroupBy_eq_dec : EqDecision GroupBy.
Proof. solve_decision. Defined.

Global Instance HealthFilter_eq_dec : EqDecision HealthFilter.
Proof. solve_decision. Defined.

(** [PlantItem] (lines 468-481).  The label is the one passed to [super];
    tooltip, description, icon and command are presentation data derived
    from the same two fields and are not kept. *)
Record PlantItem := mkPlantItem {
  pi_uri : Uri;
  pi_metrics : FileMetrics;
  pi_label : string
}.

Definition newPlantItem (uri : Uri) (metrics : FileMetrics) : PlantItem :=
  {| pi_uri := uri; pi_metrics := metrics; pi_label := uri_basename uri |}.

(** [GroupItem] (lines 542-554). *)
Record GroupItem := mkGroupItem {
  gi_label : string;
  gi_children : list PlantItem;
  gi_iconName : string
}.

Definition newGroupItem (label : string) (children : list PlantItem)
    (iconName : string) : GroupItem :=
  {| gi_label := label +:+ " (" +:+ show (Z.of_nat (length children)) +:+ ")";
     gi_children := children;
     gi_iconName := iconName |}.

(** [GardenItem[]] holds items of both classes; [instanceof] is the match
    on the constructor. *)
Inductive GardenItem :=
| Plant (p : PlantItem)
| Group (g : GroupItem).

(** [Array.prototype.sort(compare)]: a stable sort; [b] goes before [a]
    only when [compare(a, b) > 0].  Elements are inserted from the right,
    each in front of the first element it does not exceed. *)
Section Sort.
Context {A : Type} (compare : A -> A -> Z).

Fixpoint sort_insert (x : A) (l : list A) : list A :=
  match l with
  | [] => [x]
  | y :: l' =>
      if compare x y <=? 0 then x :: y :: l' else y :: sort_insert x l'
  end.

Definition sort (l : list A) : list A := foldr sort_insert [] l.
End Sort.

(** [(a, b) => a.label!.toString().localeCompare(b.label!.toString())]. *)
Definition byPlantLabel (h : Host) (a b : PlantItem) : Z :=
  localeCompare h (pi_label a) (pi_label b).

Definition byGroupLabel (h : Host) (a b : GroupItem) : Z :=
  localeCompare h (gi_label a) (gi_label b).

(** *** Display names and icons (lines 159-220, and
    [FileAnalyzer.getIconForFileType], lines 253-270) *)

Definition getIconForFileType (type : string) (health : Health) : string :=
  let healthSuffix :=
    if bool_decide (health = healthy) then "" else "-" +:+ health_name health in
  if bool_decide (type = "folder") then "folder"
  else if bool_decide (type = "typescript") || bool_decide (type = "javascript")
          || bool_decide (type = "react")
  then "leaf" +:+ healthSuffix
  else if bool_decide (type = "python") || bool_decide (type = "java")
          || bool_decide (type = "cpp")
  then "flower-" +:+ health_name health
  else "leaf" +:+ healthSuffix.

Definition typeNames : list (string * string) :=
  [ ("typescript", "TypeScript Files"); ("javascript", "JavaScript Files");
    ("python", "Python Files"); ("java", "Java Files"); ("cpp", "C++ Files");
    ("css", "CSS Files"); ("html", "HTML Files"); ("json", "JSON Files");
    ("markdown", "Markdown Files"); ("image", "Image Files");
    ("database", "Database Files") ].

(** [type.charAt(0).toUpperCase() + type.slice(1)]; the type tags are the
    ASCII constants of [FILE_TYPE_ICONS], ["file"] and ["unknown"]. *)
Definition capitalize (s : string) : string :=
  match s with
  | EmptyString => EmptyString
  | String c s' =>
      let n := N_of_ascii c in
      String (if ((97 <=? n) && (n <=? 122))%N then ascii_of_N (n - 32) else c) s'
  end.

Definition getTypeDisplayName (type : string) : string :=
  or_else (map_get typeNames type) (capitalize type +:+ " Files").

Definition healthNames : list (string * string) :=
  [ ("healthy", "üå± Healthy Files");
    ("warning", "‚ö†Ô∏è Files Needing Attention");
    ("critical", "üö® Critical Files") ].

Definition getHealthDisplayName (health : string) : string :=
  or_else (map_get healthNames health) health.

Definition getTypeIcon (type : string) : string :=
  getIconForFileType type healthy.

Definition getHealthIcon (health : string) : string :=
  if bool_decide (health = "healthy") then "leaf"
  else if bool_decide (health = "warning") then "leaf-warning"
  else if bool_decide (health = "critical") then "leaf-critical"
  else "leaf".

Definition getGroupLabel (currentGroupBy : GroupBy) (key : string) : string :=
  match currentGroupBy with
  | by_type => getTypeDisplayName key
  | by_health => getHealthDisplayName key
  | _ => key
  end.

Definition getGroupIcon (currentGroupBy : GroupBy) (key : string) : string :=
  match currentGroupBy with
  | by_type => getTypeIcon key
  | by_health => getHealthIcon key
  | by_folder => "folder"
  | by_none => "file"
  end.

(** *** [groupItems] (lines 110-157)

    [groups] is a [Map<string, PlantItem[]>]; iteration follows insertion
    order, so it is a list of entries in that order. *)

Definition Groups : Type := list (string * list PlantItem).

Definition groups_has (groups : Groups) (key : string) : bool :=
  existsb (fun e => bool_decide (fst e = key)) groups.

(** [groups.set(key, [])] for a key that is not in the map. *)
Definition groups_set_new (groups : Groups) (key : string) : Groups :=
  (groups ++ [(key, [])])%list.

(** [groups.get(key)!.push(item)]. *)
Fixpoint groups_push (groups : Groups) (key : string) (item : PlantItem)
    : Groups :=
  match groups with
  | [] => []
  | (k, children) :: groups' =>
      if bool_decide (k = key) then (k, (children ++ [item])%list) :: groups'
      else (k, children) :: groups_push groups' key item
  end.

(** The [groupKey] of the [switch]; [None] is the [default: return]. *)
Definition groupKey (currentGroupBy : GroupBy) (item : PlantItem)
    : option string :=
  match currentGroupBy with
  | by_type => Some (type (pi_metrics item))
  | by_health => Some (health_name (health (pi_metrics item)))
  | by_folder => Some (uri_dirname (pi_uri item))
  | by_none => None
  end.

(** One round of [items.forEach]. *)
Definition addToGroups (currentGroupBy : GroupBy) (groups : Groups)
    (item : PlantItem) : Groups :=
  match groupKey currentGroupBy item with
  | None => groups
  | Some key =>
      let groups1 :=
        if groups_has groups key then groups else groups_set_new groups key in
      groups_push groups1 key item
  end.

Definition collectGroups (currentGroupBy : GroupBy) (items : list PlantItem)
    : Groups :=
  foldl (addToGroups currentGroupBy) [] items.

Definition groupItems (h : Host) (currentGroupBy : GroupBy)
    (items : list PlantItem) : list GroupItem :=
  let groups := collectGroups currentGroupBy items in
  let groupItems :=
    map (fun '(key, children) =>
           let groupLabel := getGroupLabel currentGroupBy key in
           let groupIcon := getGroupIcon currentGroupBy key in
           newGroupItem groupLabel (sort (byPlantLabel h) children) groupIcon)
        groups in
  sort (byGroupLabel h) groupItems.

(** *** [getRootItems] (lines 64-108) *)

(** The provider's mutable fields that the view model reads and writes. *)
Record Provider := mkProvider {
  fileCache : gmap string FileMetrics;
  currentGroupBy : GroupBy;
  currentHealthFilter : HealthFilter
}.

(** [Array.from(new Set(allFiles.map(f => f.toString()))).map(Uri.parse)]:
    the first occurrence of every key, in order of appearance.  Parsing
    the key gives back the [Uri] it was printed from. *)
Fixpoint uniqueFiles_from (seen : gset string) (allFiles : list Uri)
    : list Uri :=
  match allFiles with
  | [] => []
  | f :: rest =>
      if bool_decide (uri_toString f ∈ seen) then uniqueFiles_from seen rest
      else f :: uniqueFiles_from ({[ uri_toString f ]} ∪ seen) rest
  end.

Definition uniqueFiles (allFiles : list Uri) : list Uri :=
  uniqueFiles_from ∅ allFiles.

(** The test of the [continue] statement. *)
Definition filteredOut (filter : HealthFilter) (metrics : FileMetrics) : bool :=
  match filter with
  | all => false
  | only wanted => negb (bool_decide (health metrics = wanted))
  end.

(** The cache-checked analysis of one file (lines 85-89). *)
Definition cachedMetrics (h : Host) (cache : gmap string FileMetrics)
    (file : Uri) : FileMetrics * gmap string FileMetrics :=
  match cache !! uri_toString file with
  | Some metrics => (metrics, cache)
  | None =>
      let metrics := analyzeFile h file in
      (metrics, <[ uri_toString file := metrics ]> cache)
  end.

(** The loop over [uniqueFiles] (lines 82-100); [analyzeFile] catches all
    it throws, so the handler of the loop body is never entered. *)
Fixpoint analyzeAll (h : Host) (filter : HealthFilter)
    (cache : gmap string FileMetrics) (files : list Uri)
    : list PlantItem * gmap string FileMetrics :=
  match files with
  | [] => ([], cache)
  | file :: rest =>
      let '(metrics, cache1) := cachedMetrics h cache file in
      let '(plantItems, cache2) := analyzeAll h filter cache1 rest in
      if filteredOut filter metrics then (plantItems, cache2)
      else (newPlantItem file metrics :: plantItems, cache2)
  end.

(** [allFiles] is what [findFiles] returned for the include patterns,
    concatenated. *)
Definition getRootItems (h : Host) (p : Provider) (allFiles : list Uri)
    : list GardenItem * Provider :=
  let '(plantItems, cache) :=
    analyzeAll h (currentHealthFilter p) (fileCache p) (uniqueFiles allFiles) in
  let p' := {| fileCache := cache;
               currentGroupBy := currentGroupBy p;
               currentHealthFilter := currentHealthFilter p |} in
  match currentGroupBy p with
  | by_none => (map Plant (sort (byPlantLabel h) plantItems), p')
  | groupBy => (map Group (groupItems h groupBy plantItems), p')
  end.

(** ** ReportGenerator: [generateReport] and [exportReport]
    (lines 368-435)

    The report text prints the values below between fixed headings (with
    the host's date, percentage and decimal formatting); the record keeps
    the values.  [avgComplexity] is [rep_complexity / rep_total]. *)
Record Report := mkReport {
  rep_total : Z;
  rep_healthy : Z;
  rep_warning : Z;
  rep_critical : Z;
  rep_totalSize : Z;
  rep_totalLines : Z;
  rep_complexity : Z;
  rep_criticalFiles : list string;
  rep_warningFiles : list string
}.

(** [items.filter(item => item instanceof PlantItem)]. *)
Definition plantsOf (items : list GardenItem) : list PlantItem :=
  omap (fun item => match item with Plant p => Some p | Group _ => None end)
       items.

Definition withHealth (wanted : Health) (plantItems : list PlantItem)
    : list PlantItem :=
  filter (fun item => health (pi_metrics item) = wanted) plantItems.

Definition countHealth (wanted : Health) (plantItems : list PlantItem) : Z :=
  Z.of_nat (length (withHealth wanted plantItems)).

(** [reduce((sum, item) => sum + field(item), 0)]. *)
Definition total (field : FileMetrics -> Z) (plantItems : list PlantItem) : Z :=
  foldl (fun sum item => sum + field (pi_metrics item)) 0 plantItems.

(** [issues.join(', ')]. *)
Fixpoint join (sep : string) (parts : list string) : string :=
  match parts with
  | [] => ""
  | [s] => s
  | s :: rest => s +:+ sep +:+ join sep rest
  end.

Definition newline : string := String "010"%char EmptyString.

Definition bullet (item : PlantItem) : string :=
  "- **" +:+ pi_label item +:+ "**: "
  +:+ join ", " (issues (pi_metrics item)) +:+ newline.

Definition generateReport (items : list GardenItem) : Report :=
  let plantItems := plantsOf items in
  {| rep_total := Z.of_nat (length plantItems);
     rep_healthy := countHealth healthy plantItems;
     rep_warning := countHealth warning plantItems;
     rep_critical := countHealth critical plantItems;
     rep_totalSize := total size plantItems;
     rep_totalLines := total lines plantItems;
     rep_complexity := total complexity plantItems;
     rep_criticalFiles := map bullet (withHealth critical plantItems);
     rep_warningFiles := map bullet (withHealth warning plantItems) |}.

Definition exportReport (h : Host) (p : Provider) (allFiles : list Uri)
    : Report * Provider :=
  let '(items, p') := getRootItems h p allFiles in
  (generateReport items, p').

(** ** ChangeDebouncer: [debouncedRefresh] (lines 347-361)

    The host's timers are a table of pending one-shot timers, each with
    its handle and the time it is due; [setTimeout(f, d)] makes a timer
    due [d] milliseconds after the call.  Every timer of this table runs
    the callback of [debouncedRefresh], which calls [refresh()]. *)
Record World := mkWorld {
  clock : Z;                        (* current time, in milliseconds *)
  timers : list (nat * Z);          (* pending timers: handle, due time *)
  nextHandle : nat;
  debounceTimer : option nat;       (* [this.debounceTimer] *)
  provider : Provider;
  refreshed : list Z                (* times at which [refresh()] ran *)
}.

(** [refresh()] (lines 25-31): the cache is cleared and the tree is told
    to reload. *)
Definition refresh (w : World) : World :=
  {| clock := clock w; timers := timers w; nextHandle := nextHandle w;
     debounceTimer := debounceTimer w;
     provider := {| fileCache := ∅;
                    currentGroupBy := currentGroupBy (provider w);
                    currentHealthFilter := currentHealthFilter (provider w) |};
     refreshed := (refreshed w ++ [clock w])%list |}.

Definition clearTimeout (handle : nat) (w : World) : World :=
  {| clock := clock w;
     timers := filter (fun t => fst t <> handle) (timers w);
     nextHandle := nextHandle w; debounceTimer := debounceTimer w;
     provider := provider w; refreshed := refreshed w |}.

Definition setTimeout (delay : Z) (w : World) : nat * World :=
  (nextHandle w,
   {| clock := clock w;
      timers := (timers w ++ [(nextHandle w, clock w + delay)])%list;
      nextHandle := S (nextHandle w); debounceTimer := debounceTimer w;
      provider := provider w; refreshed := refreshed w |}).

(** [debounceDelay] is the value read from the configuration by this
    call. *)
Definition debouncedRefresh (debounceDelay : Z) (w : World) : World :=
  let w1 :=
    match debounceTimer w with
    | Some handle => clearTimeout handle w
    | None => w
    end in
  let '(handle, w2) := setTimeout debounceDelay w1 in
  {| clock := clock w2; timers := timers w2; nextHandle := nextHandle w2;
     debounceTimer := Some handle;
     provider := provider w2; refreshed := refreshed w2 |}.

(** The event loop up to time [t]: the timers due by then run in the order
    in which they are due, each at its due time, and leave the table. *)
Definition runCallbackAt (w : World) (timer : nat * Z) : World :=
  refresh {| clock := Z.max (clock w) (snd timer); timers := timers w;
             nextHandle := nextHandle w; debounceTimer := debounceTimer w;
             provider := provider w; refreshed := refreshed w |}.

Definition advance (t : Z) (w : World) : World :=
  let due := sort (fun a b => snd a - snd b)
                  (filter (fun timer => snd timer <= t) (timers w)) in
  let w1 := {| clock := clock w;
               timers := filter (fun timer => t < snd timer) (timers w);
               nextHandle := nextHandle w; debounceTimer := debounceTimer w;
               provider := provider w; refreshed := refreshed w |} in
  let w2 := foldl runCallbackAt w1 due in
  {| clock := Z.max (clock w2) t; timers := timers w2;
     nextHandle := nextHandle w2; debounceTimer := debounceTimer w2;
     provider := provider w2; refreshed := refreshed w2 |}.

(** A change notification that reaches the debouncer at time [t]. *)
Definition notify (debounceDelay : Z) (w : World) (t : Z) : World :=
  debouncedRefresh debounceDelay (advance t w).

(** A burst: the first notification at [t0], each further one [gap]
    milliseconds after the one before. *)
Fixpoint arrivals (t0 : Z) (gaps : list Z) : list Z :=
  match gaps with
  | [] => [t0]
  | gap :: gaps' => t0 :: arrivals (t0 + gap) gaps'
  end.

Definition burst (debounceDelay : Z) (w : World) (t0 : Z) (gaps : list Z)
    : World :=
  foldl (notify debounceDelay) w (arrivals t0 gaps).

(** The provider as its constructor leaves it, at time [t]. *)
Definition initialWorld (t : Z) : World :=
  {| clock := t; timers := []; nextHandle := 0%nat; debounceTimer := None;
     provider := {| fileCache := ∅; currentGroupBy := by_none;
                    currentHealthFilter := all |};
     refreshed := [] |}.

(** ** Further functions of [GardenProvider] and of its items *)

(** *** [getChildren] (lines 47-62)

    [workspaceFolders] tells whether [vscode.workspace.workspaceFolders]
    is defined; [element] is the optional argument. *)
Definition getChildren (h : Host) (p : Provider) (workspaceFolders : bool)
    (allFiles : list Uri) (element : option GardenItem)
    : list GardenItem * Provider :=
  if negb workspaceFolders then ([], p)
  else
    match element with
    | None => getRootItems h p allFiles
    | Some (Group g) => (map Plant (gi_children g), p)
    | Some (Plant _) => ([], p)
    end.

(** *** [getGardenSummary] (lines 379-389) *)
Record Summary := mkSummary {
  sum_total : Z;
  sum_healthy : Z;
  sum_warning : Z;
  sum_critical : Z
}.

Definition getGardenSummary (h : Host) (p : Provider) (allFiles : list Uri)
    : Summary * Provider :=
  let '(items, p') := getRootItems h p allFiles in
  let plantItems := plantsOf items in
  ({| sum_total := Z.of_nat (length plantItems);
      sum_healthy := countHealth healthy plantItems;
      sum_warning := countHealth warning plantItems;
      sum_critical := countHealth critical plantItems |}, p').

(** *** [PlantItem.createDescription] (lines 505-525) *)

(** [Math.round(size / 1024)] on an integer: the quotient is exact, and
    [Math.round] takes the nearest integer, a half going up. *)
Definition roundKB (size : Z) : Z := (size + 512) / 1024.

(** [showMetrics.includes(name)]. *)
Definition includes (showMetrics : list string) (name : string) : bool :=
  bool_decide (name ∈ showMetrics).

(** The [parts] array before the final [join]. *)
Definition descriptionParts (h : Host) (showMetrics : list string)
    (metrics : FileMetrics) : list string :=
  let parts0 := [] in
  let parts1 :=
    if includes showMetrics "complexity"
    then push parts0 ("C:" +:+ show (complexity metrics)) else parts0 in
  let parts2 :=
    if includes showMetrics "size"
    then push parts1 (show (roundKB (size metrics)) +:+ "KB") else parts1 in
  if includes showMetrics "lastModified" then
    let days := (now h - lastModified metrics) / msPerDay in
    if 0 <? days then push parts2 (show days +:+ "d ago") else parts2
  else parts2.

Definition createDescription (h : Host) (showMetrics : list string)
    (metrics : FileMetrics) : string :=
  join " ‚Ä¢ " (descriptionParts h showMetrics metrics).

(** *** [setGroupBy], [setHealthFilter] (lines 33-41) *)

Definition setGroupBy (groupBy : GroupBy) (w : World) : World :=
  refresh {| clock := clock w; timers := timers w;
             nextHandle := nextHandle w; debounceTimer := debounceTimer w;
             provider := {| fileCache := fileCache (provider w);
                            currentGroupBy := groupBy;
                            currentHealthFilter :=
                              currentHealthFilter (provider w) |};
             refreshed := refreshed w |}.

Definition setHealthFilter (filter : HealthFilter) (w : World) : World :=
  refresh {| clock := clock w; timers := timers w;
             nextHandle := nextHandle w; debounceTimer := debounceTimer w;
             provider := {| fileCache := fileCache (provider w);
                            currentGroupBy := currentGroupBy (provider w);
                            currentHealthFilter := filter |};
             refreshed := refreshed w |}.

(** *** [onFileChanged] (lines 311-345) *)

Inductive ChangeType := created | changed | deleted.

(** [s.endsWith(suffix)]. *)
Fixpoint endsWith (s suffix : string) : bool :=
  if bool_decide (s = suffix) then true
  else
    match s with
    | EmptyString => false
    | String _ s' => endsWith s' suffix
    end.

Definition skipExtensions : list string :=
  [".log"; ".tmp"; ".temp"; ".cache"; ".lock"].

Definition skipFiles : list string :=
  [".ds_store"; "thumbs.db"; "desktop.ini"].

(** The test of the early [return]; [fileName] is
    [uri.fsPath.toLowerCase()]. *)
Definition skipped (fileName : string) : bool :=
  existsb (fun ext => endsWith fileName ext) skipExtensions
  || existsb (fun file => endsWith fileName file) skipFiles.

(** The log line and the optional notification message have no effect on
    the state kept here; [changeType] is read by them only. *)
Definition onFileChanged (debounceDelay : Z) (uri : Uri) (fileName : string)
    (changeType : ChangeType) (w : World) : World :=
  if skipped fileName then w
  else
    debouncedRefresh debounceDelay
      {| clock := clock w; timers := timers w; nextHandle := nextHandle w;
         debounceTimer := debounceTimer w;
         provider :=
           {| fileCache := delete (uri_toString uri) (fileCache (provider w));
              currentGroupBy := currentGroupBy (provider w);
              currentHealthFilter := currentHealthFilter (provider w) |};
         refreshed := refreshed w |}.

(** *** [shouldExcludeFile] (lines 298-309) *)

(** [pattern.replace(/\*\*/g, '.*')]. *)
Fixpoint replaceStarStar (pattern : string) : string :=
  match pattern with
  | String "*" (String "*" rest) => ".*" +:+ replaceStarStar rest
  | String c rest => String c (replaceStarStar rest)
  | EmptyString => EmptyString
  end.

(** [.replace(/\*/g, '[^/]*')]. *)
Fixpoint replaceStar (pattern : string) : string :=
  match pattern with
  | String "*" rest => "[^/]*" +:+ replaceStar rest
  | String c rest => String c (replaceStar rest)
  | EmptyString => EmptyString
  end.

(** [.replace(/\?/g, '[^/]')]. *)
Fixpoint replaceQuestion (pattern : string) : string :=
  match pattern with
  | String "?" rest => "[^/]" +:+ replaceQuestion rest
  | String c rest => String c (replaceQuestion rest)
  | EmptyString => EmptyString
  end.

Definition regexPattern (pattern : string) : string :=
  replaceQuestion (replaceStar (replaceStarStar pattern)).

(** The source text handed to [new RegExp]. *)
Definition regexSource (pattern : string) : string :=
  "^" +:+ regexPattern pattern +:+ "$".

(** [regexTest source s] stands for [new RegExp(source).test(s)] of the
    host; [relativePath] is [workspace.asRelativePath(uri)]. *)
Definition shouldExcludeFile (regexTest : string -> string -> bool)
    (relativePath : string) (excludePatterns : list string) : bool :=
  existsb (fun pattern => regexTest (regexSource pattern) relativePath)
          excludePatterns.

(** *** [setupAutoRefresh], [clearFileWatchers], [dispose]
    (lines 222-235, 363-366, 447-455)

    Beside the timeouts of [World] the host keeps a table of interval
    timers, each with its handle and its period in milliseconds, and the
    provider keeps its file-system watchers, one per include pattern. *)
Record Session := mkSession {
  world : World;
  refreshTimer : option nat;          (* [this.refreshTimer] *)
  intervals : list (nat * Z);         (* pending intervals: handle, period *)
  nextInterval : nat;
  fileWatchers : list string          (* the pattern of each watcher *)
}.

Definition clearInterval (handle : nat) (s : Session) : Session :=
  {| world := world s; refreshTimer := refreshTimer s;
     intervals := filter (fun t => fst t <> handle) (intervals s);
     nextInterval := nextInterval s; fileWatchers := fileWatchers s |}.

(** [interval] is the configured [refreshInterval], in seconds. *)
Definition setupAutoRefresh (interval : Z) (s : Session) : Session :=
  let s1 :=
    match refreshTimer s with
    | Some handle => clearInterval handle s
    | None => s
    end in
  if 0 <? interval then
    {| world := world s1;
       refreshTimer := Some (nextInterval s1);
       intervals := intervals s1 ++ [(nextInterval s1, interval * 1000)];
       nextInterval := S (nextInterval s1);
       fileWatchers := fileWatchers s1 |}
  else s1.

Definition clearFileWatchers (s : Session) : Session :=
  {| world := world s; refreshTimer := refreshTimer s;
     intervals := intervals s; nextInterval := nextInterval s;
     fileWatchers := [] |}.

(** The watchers that [setupFileWatchers] (lines 247-289) leaves: none
    without workspace folders or with watching disabled, else one per
    include pattern.  The callbacks it registers are the notifications of
    [onFileChanged]. *)
Definition setupFileWatchers (workspaceFolders enableFileWatching : bool)
    (includePatterns : list string) (s : Session) : Session :=
  let s1 := clearFileWatchers s in
  if negb workspaceFolders || negb enableFileWatching then s1
  else
    {| world := world s1; refreshTimer := refreshTimer s1;
       intervals := intervals s1; nextInterval := nextInterval s1;
       fileWatchers := fileWatchers s1 ++ includePatterns |}.

Definition onWorld (f : World -> World) (s : Session) : Session :=
  {| world := f (world s); refreshTimer := refreshTimer s;
     intervals := intervals s; nextInterval := nextInterval s;
     fileWatchers := fileWatchers s |}.

Definition dispose (s : Session) : Session :=
  let s1 :=
    match refreshTimer s with
    | Some handle => clearInterval handle s
    | None => s
    end in
  let s2 :=
    match debounceTimer (world s1) with
    | Some handle => onWorld (clearTimeout handle) s1
    | None => s1
    end in
  clearFileWatchers s2.

(** The session as the constructor leaves it at time [t]:
    [setupAutoRefresh], then [setupFileWatchers]. *)
Definition initialSession (t interval : Z)
    (workspaceFolders enableFileWatching : bool)
    (includePatterns : list string) : Session :=
  setupFileWatchers workspaceFolders enableFileWatching includePatterns
    (setupAutoRefresh interval
       {| world := initialWorld t; refreshTimer := None; intervals := [];
          nextInterval := 0%nat; fileWatchers := [] |}).

(** The tree asks for its root items: [getRootItems] on the provider of
    the world. *)
Definition scan (h : Host) (allFiles : list Uri) (w : World) : World :=
  {| clock := clock w; timers := timers w; nextHandle := nextHandle w;
     debounceTimer := debounceTimer w;
     provider := snd (getRootItems h (provider w) allFiles);
     refreshed := refreshed w |}.

(** What may happen to a session: time passes, the tree is drawn, a file
    changes, the user refreshes or changes the view, the configuration or
    the workspace folders change. *)
Inductive Step : Session -> Session -> Prop :=
| step_advance s t :
    Step s (onWorld (advance t) s)
| step_scan s h allFiles :
    Step s (onWorld (scan h allFiles) s)
| step_fileChanged s delay uri fileName changeType :
    Step s (onWorld (onFileChanged delay uri fileName changeType) s)
| step_debouncedRefresh s delay :
    Step s (onWorld (debouncedRefresh delay) s)
| step_refresh s :
    Step s (onWorld refresh s)
| step_setGroupBy s groupBy :
    Step s (onWorld (setGroupBy groupBy) s)
| step_setHealthFilter s filter :
    Step s (onWorld (setHealthFilter filter) s)
| step_configuration s interval workspaceFolders enableFileWatching includePatterns :
    Step s (onWorld refresh
              (setupFileWatchers workspaceFolders enableFileWatching
                 includePatterns (setupAutoRefresh interval s)))
| step_workspaceFolders s delay workspaceFolders enableFileWatching includePatterns :
    Step s (onWorld (debouncedRefresh delay)
              (setupFileWatchers workspaceFolders enableFileWatching
                 includePatterns s)).

Inductive Reachable : Session -> Prop :=
| reach_initial t interval workspaceFolders enableFileWatching includePatterns :
    Reachable (initialSession t interval workspaceFolders enableFileWatching
                 includePatterns)
| reach_step s s' : Reachable s -> Step s s' -> Reachable s'.

(** ** Concrete hosts for the examples *)

Module Examples.

(** [localeCompare] of the host's default collation on labels made of
    ASCII letters: letters compare alphabetically whatever their case,
    and between labels equal up to case the first difference in case
    decides, lower case first (so ["a" < "B"] and ["a" < "A"]). *)
Fixpoint lowered (s : string) : string :=
  match s with
  | EmptyString => EmptyString
  | String c s' => String (Regex.fold_case c) (lowered s')
  end.

Definition swap_case (c : ascii) : ascii :=
  let n := N_of_ascii c in
  if ((65 <=? n) && (n <=? 90))%N then ascii_of_N (n + 32)
  else if ((97 <=? n) && (n <=? 122))%N then ascii_of_N (n - 32)
  else c.

Fixpoint swapped (s : string) : string :=
  match s with
  | EmptyString => EmptyString
  | String c s' => String (swap_case c) (swapped s')
  end.

Definition sign (c : comparison) : Z :=
  match c with Lt => -1 | Eq => 0 | Gt => 1 end.

Definition letterCollation (a b : string) : Z :=
  match String.compare (lowered a) (lowered b) with
  | Eq => sign (String.compare (swapped a) (swapped b))
  | c => sign c
  end.

Definition file (dir name ext : string) : Uri :=
  {| uri_toString := "file://" +:+ dir +:+ "/" +:+ name;
     uri_basename := name;
     uri_dirname := dir;
     uri_ext := ext;
     uri_basename_lc := lowered name |}.

Definition day : Z := msPerDay.
Definition today : Z := 20000 * day.

(** A workspace [/w] with four entries: [a] and [B] are small files
    written today, [old.ts] is a small file written 95 days ago, and
    [gone.txt] cannot be read. *)
Definition file_a : Uri := file "/w" "a" "".
Definition file_B : Uri := file "/w" "B" "".
Definition file_old : Uri := file "/w/src" "old.ts" ".ts".
Definition file_gone : Uri := file "/w" "gone.txt" ".txt".

Definition workspace : Host :=
  {| now := today;
     healthThresholds := defaultThresholds;
     fs_stat := fun key =>
       if bool_decide (key = uri_toString file_a) then inr (mkStat 6 today)
       else if bool_decide (key = uri_toString file_B) then inr (mkStat 6 today)
       else if bool_decide (key = uri_toString file_old)
       then inr (mkStat 12 (today - 95 * day))
       else inl (ErrorObject "ENOENT: no such file or directory");
     fs_readFile := fun key =>
       if bool_decide (key = uri_toString file_a) then inr "hello
"
       else if bool_decide (key = uri_toString file_B) then inr "world
"
       else if bool_decide (key = uri_toString file_old)
       then inr "if (x) { y }"
       else inl (ErrorObject "ENOENT: no such file or directory");
     localeCompare := letterCollation |}.

Definition fresh (groupBy : GroupBy) (filter : HealthFilter) : Provider :=
  {| fileCache := ∅; currentGroupBy := groupBy;
     currentHealthFilter := filter |}.

(** Thresholds whose complexity critical level lies below the warning
    level; the program reads thresholds from the configuration without
    comparing the two. *)
Definition invertedThresholds : HealthThresholds :=
  {| th_complexity := mkLevel 10 5;
     th_size := mkLevel 500 1000;
     th_age := mkLevel 30 90 |}.

End Examples.

(** The workspace of [Examples] thirty days later: [a] has grown and has
    been rewritten, [gone.txt] can be read again. *)
Module Later.

Definition workspace : Host :=
  {| now := Examples.today + 30 * Examples.day;
     healthThresholds := defaultThresholds;
     fs_stat := fun key =>
       if bool_decide (key = uri_toString Examples.file_a)
       then inr (mkStat (2000 * 1024) (Examples.today + 29 * Examples.day))
       else inr (mkStat 6 Examples.today);
     fs_readFile := fun key =>
       if bool_decide (key = uri_toString Examples.file_a)
       then inr "if (a) { b } else { c }"
       else inr "text";
     localeCompare := Examples.letterCollation |}.

End Later.

(** ** The classifier as the specification words it

    Section 4.2 of the specification gives the score as a sum of three
    contributions and the issues as one optional string per dimension;
    these two definitions follow that wording and are compared below with
    [assessState], which follows the source. *)

Definition claimedScore (now size complexity lastModified : Z)
    (th : HealthThresholds) : Z :=
  (if complexity >=? lvl_critical (th_complexity th) then 2
   else if complexity >=? lvl_warning (th_complexity th) then 1 else 0)
  + (if size / 1024 >=? lvl_critical (th_size th) then 2
     else if size / 1024 >=? lvl_warning (th_size th) then 1 else 0)
  + (if (now - lastModified) / 86400000 >=? lvl_critical (th_age th) then 1
     else 0).

Definition claimedIssues (now size complexity lastModified : Z)
    (th : HealthThresholds) : list string :=
  let kb := size / 1024 in
  let days := (now - lastModified) / 86400000 in
  ((if complexity >=? lvl_critical (th_complexity th)
    then ["High complexity (" +:+ show complexity +:+ ")"]
    else if complexity >=? lvl_warning (th_complexity th)
    then ["Moderate complexity (" +:+ show complexity +:+ ")"] else [])
   ++ (if kb >=? lvl_critical (th_size th)
       then ["Large file (" +:+ show kb +:+ "KB)"]
       else if kb >=? lvl_warning (th_size th)
       then ["Medium file (" +:+ show kb +:+ "KB)"] else [])
   ++ (if days >=? lvl_critical (th_age th)
       then ["Not modified for " +:+ show days +:+ " days"]
       else if days >=? lvl_warning (th_age th)
       then ["Last modified " +:+ show days +:+ " days ago"] else []))%list.

(** The order of the tiers: a larger rank is a worse verdict. *)
Definition rank (h : Health) : Z :=
  match h with healthy => 0 | warning => 1 | critical => 2 end.

(** ** Auxiliary notions for the view model *)

(** Under the comparator [compare], [a] may stand directly before [b]. *)
Definition inOrder {A : Type} (compare : A -> A -> Z) (a b : A) : Prop :=
  compare a b <= 0.

(** All the children held by a [groups] map. *)
Definition flat (groups : Groups) : list PlantItem := concat (map snd groups).

(** The entries of a [groups] map have pairwise distinct keys, and every
    child of an entry has the key of that entry as its [groupKey]. *)
Definition KeyedBy (groupBy : GroupBy) (groups : Groups) : Prop :=
  NoDup (map fst groups)
  /\ Forall (fun entry =>
               Forall (fun item => groupKey groupBy item = Some (fst entry))
                      (snd entry))
            groups.

(** The children of the groups that [getRootItems] returns. *)
Definition groupedChildren (items : list GardenItem) : list PlantItem :=
  concat (omap (fun item =>
                  match item with
                  | Group g => Some (gi_children g)
                  | Plant _ => None
                  end) items).

(** The enumerated file set as plant items: every distinct file once, with
    the metrics the provider holds for it in [cache] or, failing that,
    computes. *)
Definition analyzedFiles (h : Host) (cache : gmap string FileMetrics)
    (allFiles : list Uri) : list PlantItem :=
  map (fun file => newPlantItem file (fst (cachedMetrics h cache file)))
      (uniqueFiles allFiles).

(** The items that the active health filter lets through. *)
Definition shownUnder (active : HealthFilter) (plantItems : list PlantItem)
    : list PlantItem :=
  filter (fun item => filteredOut active (pi_metrics item) = false) plantItems.

(** ** Auxiliary notions for the debouncer *)

(** The time of the last notification of a burst. *)
Definition lastArrival (t0 : Z) (gaps : list Z) : Z := foldl Z.add t0 gaps.

(** At time [t] nothing is due, and whatever timer is pending is the one
    whose handle [debounceTimer] holds. *)
Definition Quiet (w : World) (t : Z) : Prop :=
  clock w <= t
  /\ Forall (fun timer => debounceTimer w = Some (fst timer) /\ t < snd timer)
            (timers w).

(** One timer is pending: the one set by the notification at time [t]. *)
Definition Armed (debounceDelay : Z) (w : World) (t : Z) : Prop :=
  exists handle,
    timers w = [(handle, t + debounceDelay)]
    /\ debounceTimer w = Some handle
    /\ clock w = t.

(** ** Auxiliary notions for the further properties *)

(** ASCII letters in lower case, every other byte as it is. *)
Fixpoint lowerAscii (s : string) : string :=
  match s with
  | EmptyString => EmptyString
  | String c s' => String (Regex.fold_case c) (lowerAscii s')
  end.

Definition lowerOpt (o : option ascii) : option ascii :=
  match o with Some c => Some (Regex.fold_case c) | None => None end.

(** A pattern that cannot tell a text from its lower-case form. *)
Definition CaseBlind (re : option ascii -> string -> option nat) : Prop :=
  forall prev s, re (lowerOpt prev) (lowerAscii s) = re prev s.

(** The files that the tree shows: the plant items at the root, and the
    children that [getChildren] returns for the groups at the root. *)
Definition displayedFiles (h : Host) (p : Provider) (workspaceFolders : bool)
    (allFiles : list Uri) : list PlantItem :=
  flat_map
    (fun root =>
       match root with
       | Plant item => [item]
       | Group _ =>
           plantsOf
             (fst (getChildren h p workspaceFolders allFiles (Some root)))
       end)
    (fst (getChildren h p workspaceFolders allFiles None)).

(** Every ["*"] of [s] stands directly behind a ["]"], where [prev] is the
    character before [s]. *)
Fixpoint starsFollowBracket (prev : option ascii) (s : string) : bool :=
  match s with
  | EmptyString => true
  | String c s' =>
      (if bool_decide (c = "*"%char)
       then bool_decide (prev = Some "]"%char) else true)
      && starsFollowBracket (Some c) s'
  end.

Fixpoint noQuestionMark (s : string) : bool :=
  match s with
  | EmptyString => true
  | String c s' => negb (bool_decide (c = "?"%char)) && noQuestionMark s'
  end.

(** At most one timeout is pending, and it is the one whose handle the
    provider holds. *)
Definition TimeoutsTidy (w : World) : Prop :=
  (length (timers w) <= 1)%nat
  /\ Forall (fun timer => debounceTimer w = Some (fst timer)) (timers w).

(** No timeout and no interval is pending but the one whose handle the
    provider holds, and of each kind at most one. *)
Definition Tidy (s : Session) : Prop :=
  (length (timers (world s)) <= 1)%nat
  /\ Forall (fun timer => debounceTimer (world s) = Some (fst timer))
            (timers (world s))
  /\ (length (intervals s) <= 1)%nat
  /\ Forall (fun interval => refreshTimer s = Some (fst interval))
            (intervals s).

(** The extensions that [calculateComplexity] treats specially. *)
Definition languageExtensions : list string :=
  [".ts"; ".js"; ".tsx"; ".jsx"; ".py"].

(** * Properties *)

Local Open Scope list_scope.
Local Open Scope Z_scope.

(** ** HealthClassifier *)

Ltac split_conditions :=
  repeat match goal with
         | |- context [if ?b then _ else _] => destruct b eqn:?
         end.

Section Classifier.
Variables (now lines size complexity lastModified : Z).
Variable th : HealthThresholds.

Lemma assessHealth_unfold :
  assessHealth now lines size complexity lastModified th =
  (verdict (healthScore now lines size complexity lastModified th),
   snd (assessState now lines size complexity lastModified th)).
Proof.
  unfold assessHealth, healthScore.
  destruct (assessState now lines size complexity lastModified th); reflexivity.
Qed.

Lemma assessState_claimed :
  assessState now lines size complexity lastModified th =
  (claimedScore now size complexity lastModified th,
   claimedIssues now size complexity lastModified th).
Proof.
  unfold assessState, claimedScore, claimedIssues, checkAge, checkSize,
    checkComplexity, daysSinceModified, sizeKB, msPerDay, push.
  change (1000 * 60 * 60 * 24) with 86400000.
  rewrite !Z.geb_leb.
  destruct (lvl_critical (th_complexity th) <=? complexity);
    [| destruct (lvl_warning (th_complexity th) <=? complexity)];
    (destruct (lvl_critical (th_size th) <=? size / 1024);
      [| destruct (lvl_warning (th_size th) <=? size / 1024)]);
    (destruct (lvl_critical (th_age th) <=? (now - lastModified) / 86400000);
      [| destruct (lvl_warning (th_age th) <=? (now - lastModified) / 86400000)]);
    reflexivity.
Qed.

Lemma claimedScore_range :
  0 <= claimedScore now size complexity lastModified th <= 5.
Proof.
  unfold claimedScore.
  repeat match goal with |- context [if ?b then _ else _] => destruct b end;
    lia.
Qed.

Lemma verdict_critical s : verdict s = critical <-> 3 <= s.
Proof.
  unfold verdict.
  destruct (Z.leb_spec 3 s); [intuition lia |].
  destruct (Z.leb_spec 1 s); split; (discriminate || lia).
Qed.

Lemma verdict_warning s : verdict s = warning <-> 1 <= s <= 2.
Proof.
  unfold verdict.
  destruct (Z.leb_spec 3 s); [split; (discriminate || lia) |].
  destruct (Z.leb_spec 1 s); split; (discriminate || lia || auto).
Qed.

Lemma verdict_healthy s : verdict s = healthy <-> s < 1.
Proof.
  unfold verdict.
  destruct (Z.leb_spec 3 s); [split; (discriminate || lia) |].
  destruct (Z.leb_spec 1 s); split; (discriminate || lia || auto).
Qed.

Lemma verdict_mono s1 s2 : s1 <= s2 -> rank (verdict s1) <= rank (verdict s2).
Proof.
  intros Hle. unfold verdict.
  destruct (Z.leb_spec 3 s1), (Z.leb_spec 3 s2),
    (Z.leb_spec 1 s1), (Z.leb_spec 1 s2); simpl; lia.
Qed.

(** C1.  The classifier's score is the sum the specification describes:
    2 or 1 for complexity at or above its critical or warning threshold,
    2 or 1 for the size in whole kilobytes likewise, 1 for an age in
    whole days at or above the age critical threshold and nothing for an
    age between the age warning and critical thresholds (which only adds
    an issue string); the verdict is critical exactly when the score is
    at least 3, warning exactly when it is 1 or 2, and healthy exactly
    when it is 0. *)
Theorem assessHealth_additive_score :
  let score := claimedScore now size complexity lastModified th in
  let result := assessHealth now lines size complexity lastModified th in
  healthScore now lines size complexity lastModified th = score
  /\ snd result = claimedIssues now size complexity lastModified th
  /\ (fst result = critical <-> 3 <= score)
  /\ (fst result = warning <-> 1 <= score <= 2)
  /\ (fst result = healthy <-> score = 0).
Proof.
  cbv zeta. rewrite assessHealth_unfold. unfold healthScore.
  rewrite assessState_claimed. cbn [fst snd].
  pose proof claimedScore_range as Hrange.
  split; [reflexivity |].
  split; [reflexivity |].
  split; [apply verdict_critical |].
  split; [apply verdict_warning |].
  rewrite verdict_healthy. lia.
Qed.

End Classifier.


Lemma claimedScore_mono now size c1 c2 lastModified th :
  c1 <= c2 ->
  claimedScore now size c1 lastModified th
  <= claimedScore now size c2 lastModified th.
Proof.
  intros Hle. unfold claimedScore. rewrite !Z.geb_leb.
  destruct (Z.leb_spec (lvl_critical (th_complexity th)) c1),
    (Z.leb_spec (lvl_critical (th_complexity th)) c2),
    (Z.leb_spec (lvl_warning (th_complexity th)) c1),
    (Z.leb_spec (lvl_warning (th_complexity th)) c2); lia.
Qed.

(** C6.  The score is monotonic in complexity: with size, modification
    time and thresholds fixed, a larger complexity never has a smaller
    score, and so never a better verdict. *)
Theorem healthScore_monotonic_in_complexity :
  forall now lines size c1 c2 lastModified th,
    c1 <= c2 ->
    healthScore now lines size c1 lastModified th
    <= healthScore now lines size c2 lastModified th
    /\ rank (fst (assessHealth now lines size c1 lastModified th))
       <= rank (fst (assessHealth now lines size c2 lastModified th)).
Proof.
  intros now lines size c1 c2 lastModified th Hle.
  rewrite !assessHealth_unfold. cbn [fst].
  unfold healthScore. rewrite !assessState_claimed. cbn [fst].
  pose proof (claimedScore_mono now size c1 c2 lastModified th Hle) as Hmono.
  split; [exact Hmono | apply verdict_mono; exact Hmono].
Qed.

Lemma healthScore_monotonic_in_complexity_witness :
  12 <= 25
  /\ healthScore 0 1 0 12 0 defaultThresholds
     <= healthScore 0 1 0 25 0 defaultThresholds
  /\ rank (fst (assessHealth 0 1 0 12 0 defaultThresholds))
     <= rank (fst (assessHealth 0 1 0 25 0 defaultThresholds)).
Proof.
  split; [lia |].
  apply (healthScore_monotonic_in_complexity 0 1 0 12 25 0 defaultThresholds).
  lia.
Defined.

(** C5 is stated for all thresholds; it fails when a critical threshold is
    set below the warning threshold of the same dimension, which the
    program does not reject.  Here complexity 7 is below the complexity
    warning threshold 10 and the size is below the size warning threshold,
    yet the verdict is critical: 7 reaches the complexity critical
    threshold 5, and the file is 100 days old. *)
Lemma staleness_alone_counterexample :
  7 < lvl_warning (th_complexity Examples.invertedThresholds)
  /\ sizeKB 0 < lvl_warning (th_size Examples.invertedThresholds)
  /\ fst (assessHealth (100 * msPerDay) 1 0 7 0 Examples.invertedThresholds) = critical.
Proof. vm_compute. repeat split; reflexivity. Qed.

(** C5, amended.  When the warning threshold does not exceed the critical
    threshold for complexity and for size, a file whose complexity and
    size in kilobytes are below their warning thresholds is never
    critical, whatever its age: it is warning when its age in days
    reaches the age critical threshold and healthy otherwise. *)
Theorem staleness_alone_never_critical :
  forall now lines size complexity lastModified th,
    lvl_warning (th_complexity th) <= lvl_critical (th_complexity th) ->
    lvl_warning (th_size th) <= lvl_critical (th_size th) ->
    complexity < lvl_warning (th_complexity th) ->
    sizeKB size < lvl_warning (th_size th) ->
    fst (assessHealth now lines size complexity lastModified th) <> critical
    /\ fst (assessHealth now lines size complexity lastModified th) =
       if lvl_critical (th_age th) <=? daysSinceModified now lastModified
       then warning else healthy.
Proof.
  intros now lines size complexity lastModified th Hc Hs Hcw Hsw.
  rewrite assessHealth_unfold. cbn [fst].
  unfold healthScore. rewrite assessState_claimed. cbn [fst].
  unfold claimedScore, sizeKB, daysSinceModified, msPerDay in *.
  change (1000 * 60 * 60 * 24) with 86400000.
  rewrite !Z.geb_leb.
  destruct (Z.leb_spec (lvl_critical (th_complexity th)) complexity); [lia |].
  destruct (Z.leb_spec (lvl_warning (th_complexity th)) complexity); [lia |].
  destruct (Z.leb_spec (lvl_critical (th_size th)) (size / 1024)); [lia |].
  destruct (Z.leb_spec (lvl_warning (th_size th)) (size / 1024)); [lia |].
  destruct (lvl_critical (th_age th) <=? (now - lastModified) / 86400000);
    split; (discriminate || reflexivity).
Qed.

Lemma staleness_alone_never_critical_witness :
  fst (assessHealth (100 * msPerDay) 1 2048 3 0 defaultThresholds) <> critical
  /\ fst (assessHealth (100 * msPerDay) 1 2048 3 0 defaultThresholds) =
     if lvl_critical (th_age defaultThresholds)
        <=? daysSinceModified (100 * msPerDay) 0
     then warning else healthy.
Proof.
  apply (staleness_alone_never_critical (100 * msPerDay) 1 2048 3 0
           defaultThresholds); vm_compute; (reflexivity || discriminate).
Defined.

(** C10.  The issue list of the classifier never has more than three
    entries, one per dimension at most, and a critical verdict comes with
    at least two: no dimension adds more than 2 to the score, so a score
    of 3 takes two dimensions, each of which records an issue. *)
Theorem critical_has_two_issues :
  forall now lines size complexity lastModified th,
    let result := assessHealth now lines size complexity lastModified th in
    (length (snd result) <= 3)%nat
    /\ (fst result = critical -> (2 <= length (snd result))%nat).
Proof.
  intros now lines size complexity lastModified th. cbv zeta.
  rewrite assessHealth_unfold. cbn [fst snd].
  rewrite verdict_critical. unfold healthScore.
  rewrite assessState_claimed. cbn [fst snd].
  unfold claimedScore, claimedIssues. cbv zeta.
  split_conditions; cbn [length app]; lia.
Qed.

Lemma critical_has_two_issues_witness :
  fst (assessHealth 0 1 (2000 * 1024) 25 0 defaultThresholds) = critical
  /\ (2 <= length (snd (assessHealth 0 1 (2000 * 1024) 25 0 defaultThresholds)))%nat.
Proof.
  split; [reflexivity |].
  apply (critical_has_two_issues 0 1 (2000 * 1024) 25 0 defaultThresholds).
  reflexivity.
Defined.

(** ** Sorting *)

Section SortFacts.
Context {A : Type} (compare : A -> A -> Z).

Lemma sort_insert_Permutation x l :
  Permutation (sort_insert compare x l) (x :: l).
Proof.
  induction l as [| y l IH]; simpl; [reflexivity |].
  destruct (compare x y <=? 0); [reflexivity |].
  rewrite IH. apply perm_swap.
Qed.

Lemma sort_Permutation l : Permutation (sort compare l) l.
Proof.
  induction l as [| x l IH]; simpl; [reflexivity |].
  rewrite sort_insert_Permutation. apply perm_skip, IH.
Qed.

(** The comparator never places two elements each strictly after the
    other. *)
Hypothesis compare_total : forall a b, 0 < compare a b -> compare b a <= 0.

Lemma sort_insert_HdRel x y l :
  inOrder compare y x ->
  HdRel (inOrder compare) y l ->
  HdRel (inOrder compare) y (sort_insert compare x l).
Proof.
  intros Hyx Hhd. destruct l as [| z l]; simpl.
  - constructor. exact Hyx.
  - destruct (compare x z <=? 0); constructor.
    + exact Hyx.
    + inversion Hhd; assumption.
Qed.

Lemma sort_insert_Sorted x l :
  Sorted (inOrder compare) l -> Sorted (inOrder compare) (sort_insert compare x l).
Proof.
  induction l as [| y l IH]; simpl; intros Hs.
  - repeat constructor.
  - destruct (Z.leb_spec (compare x y) 0) as [Hle | Hgt].
    + constructor; [exact Hs | constructor; exact Hle].
    + inversion Hs as [| ? ? Hl Hhd]; subst.
      constructor; [apply IH, Hl |].
      apply sort_insert_HdRel; [apply compare_total, Hgt | exact Hhd].
Qed.

Lemma sort_Sorted l : Sorted (inOrder compare) (sort compare l).
Proof.
  induction l as [| x l IH]; simpl; [constructor |].
  apply sort_insert_Sorted, IH.
Qed.

Lemma Sorted_adjacent l (i : nat) a b :
  Sorted (inOrder compare) l ->
  l !! i = Some a -> l !! S i = Some b -> inOrder compare a b.
Proof.
  intros Hs. revert i. induction Hs as [| x l Hs IH Hhd]; intros i Ha Hb.
  - discriminate.
  - destruct i as [| i]; simpl in *.
    + injection Ha as <-. destruct l as [| y l]; [discriminate |].
      simpl in Hb. injection Hb as <-. inversion Hhd; assumption.
    + eapply IH; eassumption.
Qed.

End SortFacts.

(** ** ViewModelBuilder: grouping *)

Lemma flat_app g1 g2 : flat (g1 ++ g2) = (flat g1 ++ flat g2)%list.
Proof. unfold flat. rewrite map_app, concat_app. reflexivity. Qed.

Lemma groups_has_set_new groups key :
  groups_has (groups_set_new groups key) key = true.
Proof.
  unfold groups_has, groups_set_new. rewrite existsb_app. simpl.
  rewrite bool_decide_eq_true_2 by reflexivity.
  rewrite orb_true_r. reflexivity.
Qed.

Lemma flat_set_new groups key : flat (groups_set_new groups key) = flat groups.
Proof.
  unfold groups_set_new. rewrite flat_app. unfold flat at 2. simpl.
  apply app_nil_r.
Qed.

Lemma flat_groups_push groups key item :
  groups_has groups key = true ->
  Permutation (flat (groups_push groups key item)) (item :: flat groups).
Proof.
  unfold flat, groups_has.
  induction groups as [| [k children] groups IH]; simpl; [discriminate |].
  intros Hhas. destruct (bool_decide (k = key)); simpl.
  - rewrite <- app_assoc. simpl.
    rewrite <- Permutation_middle. reflexivity.
  - rewrite (IH Hhas). rewrite <- Permutation_middle. reflexivity.
Qed.

Lemma flat_addToGroups groupBy groups item :
  groupBy <> by_none ->
  Permutation (flat (addToGroups groupBy groups item)) (item :: flat groups).
Proof.
  intros Hmode. unfold addToGroups.
  destruct (groupKey groupBy item) as [key |] eqn:Hkey.
  - destruct (groups_has groups key) eqn:Hhas.
    + apply flat_groups_push, Hhas.
    + rewrite flat_groups_push by apply groups_has_set_new.
      rewrite flat_set_new. reflexivity.
  - destruct groupBy; (discriminate || contradiction).
Qed.

Lemma flat_foldl_addToGroups groupBy items groups :
  groupBy <> by_none ->
  Permutation (flat (foldl (addToGroups groupBy) groups items))
              (flat groups ++ items).
Proof.
  intros Hmode. revert groups.
  induction items as [| item items IH]; intros groups; simpl.
  - rewrite app_nil_r. reflexivity.
  - rewrite IH, (flat_addToGroups _ _ _ Hmode).
    rewrite <- Permutation_middle. reflexivity.
Qed.

Lemma flat_collectGroups groupBy items :
  groupBy <> by_none -> Permutation (flat (collectGroups groupBy items)) items.
Proof.
  intros Hmode. unfold collectGroups.
  rewrite (flat_foldl_addToGroups _ _ _ Hmode). reflexivity.
Qed.

Lemma children_of_sorted_groups h (groups : list GroupItem) :
  Permutation (concat (map gi_children (sort (byGroupLabel h) groups)))
              (concat (map gi_children groups)).
Proof.
  induction groups as [| g groups IH]; simpl; [reflexivity |].
  rewrite sort_insert_Permutation. simpl. rewrite IH. reflexivity.
Qed.

Lemma children_of_groupItems h groupBy (groups : Groups) :
  Permutation
    (concat (map gi_children
       (map (fun '(key, children) =>
               newGroupItem (getGroupLabel groupBy key)
                 (sort (byPlantLabel h) children) (getGroupIcon groupBy key))
            groups)))
    (flat groups).
Proof.
  unfold flat. induction groups as [| [key children] groups IH]; simpl.
  - reflexivity.
  - rewrite IH, sort_Permutation. reflexivity.
Qed.

Lemma groupedChildren_Group groups :
  groupedChildren (map Group groups) = concat (map gi_children groups).
Proof.
  unfold groupedChildren. f_equal.
  induction groups as [| g groups IH]; simpl; [reflexivity |].
  f_equal. exact IH.
Qed.

Lemma groups_push_keys groups key item :
  map fst (groups_push groups key item) = map fst groups.
Proof.
  induction groups as [| [k children] groups IH]; simpl; [reflexivity |].
  destruct (bool_decide (k = key)); simpl; [reflexivity | f_equal; exact IH].
Qed.

Lemma groups_has_false groups key :
  groups_has groups key = false -> key ∉ map fst groups.
Proof.
  unfold groups_has. induction groups as [| [k children] groups IH]; simpl.
  - intros _ Hin. inversion Hin.
  - destruct (bool_decide_reflect (k = key)) as [Heq | Hne]; simpl;
      [discriminate |].
    intros Hrest Hin. apply elem_of_cons in Hin as [Heq | Hin];
      [congruence | exact (IH Hrest Hin)].
Qed.

Lemma KeyedBy_push groupBy groups key item :
  groupKey groupBy item = Some key ->
  KeyedBy groupBy groups -> KeyedBy groupBy (groups_push groups key item).
Proof.
  intros Hkey [Hnd Hall]. split; [rewrite groups_push_keys; exact Hnd |].
  clear Hnd. induction Hall as [| [k children] groups Hentry Htail IH]; simpl;
    [constructor |].
  destruct (bool_decide_reflect (k = key)) as [-> | Hne].
  - constructor; [| exact Htail]. simpl in *.
    apply Forall_app. split; [exact Hentry | repeat constructor; exact Hkey].
  - constructor; [exact Hentry | exact IH].
Qed.

Lemma KeyedBy_set_new groupBy groups key :
  groups_has groups key = false ->
  KeyedBy groupBy groups -> KeyedBy groupBy (groups_set_new groups key).
Proof.
  intros Hnew [Hnd Hall]. unfold groups_set_new. split.
  - rewrite map_app. simpl. apply NoDup_app. split; [exact Hnd |].
    split; [| repeat constructor; intros Hin; inversion Hin].
    intros k Hk Hin. apply list_elem_of_singleton in Hin as ->.
    exact (groups_has_false _ _ Hnew Hk).
  - apply Forall_app. split; [exact Hall | repeat constructor].
Qed.

Lemma KeyedBy_addToGroups groupBy groups item :
  KeyedBy groupBy groups -> KeyedBy groupBy (addToGroups groupBy groups item).
Proof.
  intros Hkeyed. unfold addToGroups.
  destruct (groupKey groupBy item) as [key |] eqn:Hkey; [| exact Hkeyed].
  apply KeyedBy_push; [exact Hkey |].
  destruct (groups_has groups key) eqn:Hhas;
    [exact Hkeyed | apply KeyedBy_set_new; assumption].
Qed.

Lemma KeyedBy_collectGroups groupBy items :
  KeyedBy groupBy (collectGroups groupBy items).
Proof.
  unfold collectGroups.
  assert (Hstart : KeyedBy groupBy []) by (split; constructor).
  revert Hstart. generalize (@nil (string * list PlantItem)).
  induction items as [| item items IH]; intros groups Hkeyed; simpl;
    [exact Hkeyed |].
  apply IH, KeyedBy_addToGroups, Hkeyed.
Qed.

Lemma groupItems_Permutation h groupBy items :
  groupBy <> by_none ->
  Permutation (concat (map gi_children (groupItems h groupBy items))) items.
Proof.
  intros Hmode. unfold groupItems.
  rewrite children_of_sorted_groups, children_of_groupItems.
  apply flat_collectGroups, Hmode.
Qed.

Lemma getRootItems_flat h p allFiles :
  currentGroupBy p = by_none ->
  fst (getRootItems h p allFiles) =
  map Plant (sort (byPlantLabel h)
    (fst (analyzeAll h (currentHealthFilter p) (fileCache p)
            (uniqueFiles allFiles)))).
Proof.
  intros Hnone. unfold getRootItems.
  destruct (analyzeAll _ _ _ _) as [plantItems cache].
  rewrite Hnone. reflexivity.
Qed.

Lemma getRootItems_grouped h p allFiles :
  currentGroupBy p <> by_none ->
  fst (getRootItems h p allFiles) =
  map Group (groupItems h (currentGroupBy p)
    (fst (analyzeAll h (currentHealthFilter p) (fileCache p)
            (uniqueFiles allFiles)))).
Proof.
  intros Hmode. unfold getRootItems.
  destruct (analyzeAll _ _ _ _) as [plantItems cache].
  destruct (currentGroupBy p); (contradiction || reflexivity).
Qed.

(** C7.  For the grouping modes type, health and folder, grouping is a
    partition of its input: the children of all groups, taken together,
    are the input items, each exactly as often as it occurs there; the
    groups have pairwise distinct keys and every child lies in the group
    of its own key, so no item is in two groups.  In [getRootItems] the
    input is the list of plant items that passed the health filter, so
    the groups of the view hold exactly those. *)
Theorem grouping_is_partition :
  forall h p allFiles,
    currentGroupBy p <> by_none ->
    let filtered :=
      fst (analyzeAll h (currentHealthFilter p) (fileCache p)
             (uniqueFiles allFiles)) in
    Permutation (groupedChildren (fst (getRootItems h p allFiles))) filtered
    /\ forall items,
         Permutation
           (concat (map gi_children (groupItems h (currentGroupBy p) items)))
           items
         /\ KeyedBy (currentGroupBy p) (collectGroups (currentGroupBy p) items).
Proof.
  intros h p allFiles Hmode. cbv zeta. split.
  - rewrite (getRootItems_grouped _ _ _ Hmode), groupedChildren_Group.
    apply groupItems_Permutation, Hmode.
  - intros items. split.
    + apply groupItems_Permutation, Hmode.
    + apply KeyedBy_collectGroups.
Qed.

Lemma grouping_is_partition_witness :
  let p := Examples.fresh by_folder all in
  let allFiles :=
    [Examples.file_B; Examples.file_a; Examples.file_old; Examples.file_gone] in
  let filtered :=
    fst (analyzeAll Examples.workspace (currentHealthFilter p) (fileCache p)
           (uniqueFiles allFiles)) in
  Permutation
    (groupedChildren (fst (getRootItems Examples.workspace p allFiles)))
    filtered
  /\ forall items,
       Permutation
         (concat (map gi_children
            (groupItems Examples.workspace (currentGroupBy p) items)))
         items
       /\ KeyedBy (currentGroupBy p) (collectGroups (currentGroupBy p) items).
Proof.
  apply (grouping_is_partition Examples.workspace
           (Examples.fresh by_folder all)
           [Examples.file_B; Examples.file_a; Examples.file_old;
            Examples.file_gone]).
  simpl. discriminate.
Defined.

(** ** ViewModelBuilder: the flat list *)

Lemma letterCollation_total a b :
  0 < Examples.letterCollation a b -> Examples.letterCollation b a <= 0.
Proof.
  unfold Examples.letterCollation.
  rewrite (String.compare_antisym (Examples.lowered a) (Examples.lowered b)).
  rewrite (String.compare_antisym (Examples.swapped a) (Examples.swapped b)).
  destruct (String.compare (Examples.lowered b) (Examples.lowered a));
    destruct (String.compare (Examples.swapped b) (Examples.swapped a));
    simpl; lia.
Qed.

(** C8 speaks of the order of code units.  The source sorts with
    [localeCompare], the collation of the host, which puts the label ["a"]
    before the label ["B"] although the byte of ["a"] is the larger. *)
Lemma flat_list_code_unit_counterexample :
  map (fun item => match item with
                   | Plant p => pi_label p
                   | Group g => gi_label g
                   end)
      (fst (getRootItems Examples.workspace (Examples.fresh by_none all)
              [Examples.file_B; Examples.file_a]))
  = ["a"; "B"]%string
  /\ String.compare "a" "B" = Gt
  /\ String.leb "a" "B" = false.
Proof. vm_compute. repeat split; reflexivity. Qed.

(** C8, amended.  With no grouping the view model is the flat list of
    plant items in the order of [localeCompare] on their labels: of two
    adjacent items the first's label does not come after the second's in
    the host's collation.  The collation is taken not to place two labels
    each strictly after the other. *)
Theorem flat_list_sorted_by_localeCompare :
  forall h p allFiles,
    (forall a b, 0 < localeCompare h a b -> localeCompare h b a <= 0) ->
    currentGroupBy p = by_none ->
    exists plantItems,
      fst (getRootItems h p allFiles) = map Plant plantItems
      /\ Permutation plantItems
           (fst (analyzeAll h (currentHealthFilter p) (fileCache p)
                   (uniqueFiles allFiles)))
      /\ forall (i : nat) a b,
           plantItems !! i = Some a -> plantItems !! S i = Some b ->
           localeCompare h (pi_label a) (pi_label b) <= 0.
Proof.
  intros h p allFiles Htotal Hnone.
  eexists. split; [apply getRootItems_flat, Hnone |].
  split; [apply sort_Permutation |].
  intros i a b Ha Hb.
  eapply (Sorted_adjacent (byPlantLabel h)); [| exact Ha | exact Hb].
  apply sort_Sorted. intros x y. apply Htotal.
Qed.

Lemma flat_list_sorted_by_localeCompare_witness :
  exists plantItems,
    fst (getRootItems Examples.workspace (Examples.fresh by_none all)
           [Examples.file_B; Examples.file_a]) = map Plant plantItems
    /\ Permutation plantItems
         (fst (analyzeAll Examples.workspace all ∅
                 (uniqueFiles [Examples.file_B; Examples.file_a])))
    /\ forall (i : nat) a b,
         plantItems !! i = Some a -> plantItems !! S i = Some b ->
         Examples.letterCollation (pi_label a) (pi_label b) <= 0.
Proof.
  apply (flat_list_sorted_by_localeCompare Examples.workspace
           (Examples.fresh by_none all) [Examples.file_B; Examples.file_a]).
  - exact letterCollation_total.
  - reflexivity.
Defined.

(** ** The scan over the enumerated files *)

Lemma uniqueFiles_from_keys seen allFiles :
  NoDup (map uri_toString (uniqueFiles_from seen allFiles))
  /\ forall file, file ∈ uniqueFiles_from seen allFiles ->
                  uri_toString file ∉ seen.
Proof.
  revert seen. induction allFiles as [| f rest IH]; intros seen; simpl.
  - split; [constructor | intros file Hin; inversion Hin].
  - destruct (bool_decide_reflect (uri_toString f ∈ seen)) as [Hseen | Hnew].
    + apply IH.
    + destruct (IH ({[uri_toString f]} ∪ seen)) as [Hnd Hfresh]. split.
      * simpl. constructor; [| exact Hnd].
        intros Hin. apply list_elem_of_fmap in Hin as [g [Heq Hg]].
        apply Hfresh in Hg. rewrite <- Heq in Hg. apply Hg.
        apply elem_of_union. left. apply elem_of_singleton. reflexivity.
      * intros file Hin. apply elem_of_cons in Hin as [-> | Hin];
          [exact Hnew |].
        apply Hfresh in Hin. intros Hseen. apply Hin.
        apply elem_of_union. right. exact Hseen.
Qed.

Lemma uniqueFiles_NoDup allFiles :
  NoDup (map uri_toString (uniqueFiles allFiles)).
Proof. apply uniqueFiles_from_keys. Qed.

Lemma cachedMetrics_other h cache f g :
  uri_toString f <> uri_toString g ->
  fst (cachedMetrics h (snd (cachedMetrics h cache f)) g)
  = fst (cachedMetrics h cache g).
Proof.
  intros Hne. unfold cachedMetrics at 2.
  destruct (cache !! uri_toString f); simpl; [reflexivity |].
  unfold cachedMetrics. rewrite lookup_insert_ne by exact Hne.
  destruct (cache !! uri_toString g); reflexivity.
Qed.

Lemma analyzeAll_all h files :
  NoDup (map uri_toString files) ->
  forall cache,
    fst (analyzeAll h all cache files) =
    map (fun file => newPlantItem file (fst (cachedMetrics h cache file))) files.
Proof.
  induction files as [| f rest IH]; intros Hnd cache; simpl; [reflexivity |].
  apply NoDup_cons in Hnd as [Hf Hrest].
  destruct (cachedMetrics h cache f) as [metrics cache1] eqn:Hcached.
  specialize (IH Hrest cache1).
  destruct (analyzeAll h all cache1 rest) as [plantItems cache2].
  simpl in *. f_equal. rewrite IH.
  apply map_ext_in. intros g Hg. f_equal.
  replace cache1 with (snd (cachedMetrics h cache f)) by (rewrite Hcached; reflexivity).
  apply cachedMetrics_other. intros Heq. apply Hf.
  rewrite Heq. apply list_elem_of_fmap. exists g. split; [reflexivity |].
  apply list_elem_of_In, Hg.
Qed.

Lemma analyzeAll_filter h active files :
  forall cache,
    fst (analyzeAll h active cache files) =
    shownUnder active (fst (analyzeAll h all cache files)).
Proof.
  unfold shownUnder.
  induction files as [| f rest IH]; intros cache; simpl; [reflexivity |].
  destruct (cachedMetrics h cache f) as [metrics cache1].
  specialize (IH cache1).
  destruct (analyzeAll h active cache1 rest) as [shown cacheA].
  destruct (analyzeAll h all cache1 rest) as [plantItems cacheB].
  simpl in *. rewrite filter_cons. simpl.
  destruct (filteredOut active metrics) eqn:Hout.
  - rewrite decide_False by discriminate. exact IH.
  - rewrite decide_True by reflexivity. simpl. f_equal. exact IH.
Qed.

Lemma shownUnder_all plantItems : shownUnder all plantItems = plantItems.
Proof.
  unfold shownUnder. induction plantItems as [| item rest IH];
    [reflexivity |].
  rewrite filter_cons. simpl. f_equal. exact IH.
Qed.

Lemma analyzeAll_shown h p allFiles :
  fst (analyzeAll h (currentHealthFilter p) (fileCache p) (uniqueFiles allFiles))
  = shownUnder (currentHealthFilter p) (analyzedFiles h (fileCache p) allFiles).
Proof.
  rewrite analyzeAll_filter. unfold analyzedFiles.
  rewrite analyzeAll_all by apply uniqueFiles_NoDup. reflexivity.
Qed.

(** ** ReportGenerator *)

Lemma plantsOf_Plant plantItems : plantsOf (map Plant plantItems) = plantItems.
Proof.
  unfold plantsOf. induction plantItems as [| item rest IH]; simpl;
    [reflexivity | f_equal; exact IH].
Qed.

Lemma plantsOf_Group groups : plantsOf (map Group groups) = [].
Proof.
  unfold plantsOf. induction groups as [| g rest IH]; simpl;
    [reflexivity | exact IH].
Qed.

(** With a grouping mode set, [getRootItems] returns groups only, and the
    [instanceof PlantItem] filter of [generateReport] keeps none of them:
    the report counts no file. *)
Lemma exportReport_grouped h p allFiles :
  currentGroupBy p <> by_none ->
  fst (exportReport h p allFiles) = generateReport [].
Proof.
  intros Hmode. unfold exportReport.
  pose proof (getRootItems_grouped h p allFiles Hmode) as Hgrouped.
  destruct (getRootItems h p allFiles) as [items p']. simpl in *.
  rewrite Hgrouped. unfold generateReport.
  rewrite plantsOf_Group. reflexivity.
Qed.

Lemma total_from field plantItems acc :
  foldl (fun sum item => sum + field (pi_metrics item)) acc plantItems
  = acc + total field plantItems.
Proof.
  unfold total. revert acc.
  induction plantItems as [| item rest IH]; intros acc; simpl; [lia |].
  rewrite IH, (IH (0 + _)). lia.
Qed.

Lemma total_cons field item rest :
  total field (item :: rest) = field (pi_metrics item) + total field rest.
Proof. unfold total at 1. simpl. rewrite total_from. lia. Qed.

Lemma total_Permutation field l1 l2 :
  Permutation l1 l2 -> total field l1 = total field l2.
Proof.
  induction 1 as [| x l l' _ IH | x y l | l l' l'' _ IH1 _ IH2].
  - reflexivity.
  - rewrite !total_cons, IH. reflexivity.
  - rewrite !total_cons. lia.
  - congruence.
Qed.

Lemma withHealth_Permutation wanted l1 l2 :
  Permutation l1 l2 -> Permutation (withHealth wanted l1) (withHealth wanted l2).
Proof. intros Hp. unfold withHealth. rewrite Hp. reflexivity. Qed.

Lemma countHealth_Permutation wanted l1 l2 :
  Permutation l1 l2 -> countHealth wanted l1 = countHealth wanted l2.
Proof.
  intros Hp. unfold countHealth.
  rewrite (withHealth_Permutation wanted _ _ Hp). reflexivity.
Qed.

Lemma generateReport_sorted h plantItems :
  let report := generateReport (map Plant (sort (byPlantLabel h) plantItems)) in
  rep_total report = Z.of_nat (length plantItems)
  /\ rep_healthy report = countHealth healthy plantItems
  /\ rep_warning report = countHealth warning plantItems
  /\ rep_critical report = countHealth critical plantItems
  /\ rep_totalSize report = total size plantItems
  /\ rep_totalLines report = total lines plantItems
  /\ rep_complexity report = total complexity plantItems
  /\ Permutation (rep_criticalFiles report)
                 (map bullet (withHealth critical plantItems))
  /\ Permutation (rep_warningFiles report)
                 (map bullet (withHealth warning plantItems)).
Proof.
  cbv zeta. unfold generateReport. cbn [rep_total rep_healthy rep_warning
    rep_critical rep_totalSize rep_totalLines rep_complexity
    rep_criticalFiles rep_warningFiles].
  rewrite plantsOf_Plant.
  pose proof (sort_Permutation (byPlantLabel h) plantItems) as Hp.
  repeat split.
  - rewrite Hp. reflexivity.
  - apply countHealth_Permutation, Hp.
  - apply countHealth_Permutation, Hp.
  - apply countHealth_Permutation, Hp.
  - apply total_Permutation, Hp.
  - apply total_Permutation, Hp.
  - apply total_Permutation, Hp.
  - apply Permutation_map, withHealth_Permutation, Hp.
  - apply Permutation_map, withHealth_Permutation, Hp.
Qed.

(** C2 says that the report covers the whole enumerated set under every
    filter.  [exportReport] takes its items from [getRootItems], which
    drops the files that the active filter excludes: of the four files of
    the example, two are healthy, and with the filter set to healthy the
    report counts two files, not four. *)
Lemma exportReport_full_set_counterexample :
  let allFiles :=
    [Examples.file_B; Examples.file_a; Examples.file_old; Examples.file_gone] in
  let full :=
    generateReport (map Plant (analyzedFiles Examples.workspace ∅ allFiles)) in
  let report :=
    fst (exportReport Examples.workspace
           (Examples.fresh by_none (only healthy)) allFiles) in
  rep_total full = 4 /\ rep_critical full = 1
  /\ rep_total report = 2 /\ rep_critical report = 0
  /\ rep_criticalFiles report = []
  /\ rep_criticalFiles full <> [].
Proof. vm_compute. repeat split; (reflexivity || discriminate). Qed.

(** C2, amended.  With no grouping, the exported report is computed from
    the analysed files that pass the active health filter: its total, its
    counts per tier, its sums of size, lines and complexity and the
    critical and warning files it lists are those of that set.  Under the
    filter [all] that set is the entire enumerated file set. *)
Theorem exportReport_of_shown_files :
  forall h p allFiles,
    currentGroupBy p = by_none ->
    let shown :=
      shownUnder (currentHealthFilter p)
                 (analyzedFiles h (fileCache p) allFiles) in
    let report := fst (exportReport h p allFiles) in
    shownUnder all (analyzedFiles h (fileCache p) allFiles)
    = analyzedFiles h (fileCache p) allFiles
    /\ rep_total report = Z.of_nat (length shown)
    /\ rep_healthy report = countHealth healthy shown
    /\ rep_warning report = countHealth warning shown
    /\ rep_critical report = countHealth critical shown
    /\ rep_totalSize report = total size shown
    /\ rep_totalLines report = total lines shown
    /\ rep_complexity report = total complexity shown
    /\ Permutation (rep_criticalFiles report)
                   (map bullet (withHealth critical shown))
    /\ Permutation (rep_warningFiles report)
                   (map bullet (withHealth warning shown)).
Proof.
  intros h p allFiles Hnone. cbv zeta. split.
  - apply shownUnder_all.
  - unfold exportReport.
    pose proof (getRootItems_flat h p allFiles Hnone) as Hflat.
    destruct (getRootItems h p allFiles) as [items p']. simpl in *.
    rewrite Hflat, analyzeAll_shown. apply generateReport_sorted.
Qed.

Lemma exportReport_of_shown_files_witness :
  let h := Examples.workspace in
  let p := Examples.fresh by_none (only healthy) in
  let allFiles :=
    [Examples.file_B; Examples.file_a; Examples.file_old; Examples.file_gone] in
  let shown :=
    shownUnder (currentHealthFilter p)
               (analyzedFiles h (fileCache p) allFiles) in
  let report := fst (exportReport h p allFiles) in
  shownUnder all (analyzedFiles h (fileCache p) allFiles)
  = analyzedFiles h (fileCache p) allFiles
  /\ rep_total report = Z.of_nat (length shown)
  /\ rep_healthy report = countHealth healthy shown
  /\ rep_warning report = countHealth warning shown
  /\ rep_critical report = countHealth critical shown
  /\ rep_totalSize report = total size shown
  /\ rep_totalLines report = total lines shown
  /\ rep_complexity report = total complexity shown
  /\ Permutation (rep_criticalFiles report)
                 (map bullet (withHealth critical shown))
  /\ Permutation (rep_warningFiles report)
                 (map bullet (withHealth warning shown)).
Proof.
  apply (exportReport_of_shown_files Examples.workspace
           (Examples.fresh by_none (only healthy))
           [Examples.file_B; Examples.file_a; Examples.file_old;
            Examples.file_gone]).
  reflexivity.
Defined.

(** ** MetricExtractor and failure handling *)

(** The keys of the type table are pairwise distinct, so the first entry
    found for a key is the only one. *)
Lemma FILE_TYPE_ICONS_keys_distinct : NoDup (map fst FILE_TYPE_ICONS).
Proof. apply (bool_decide_unpack _). vm_compute. exact I. Qed.

Lemma calculateComplexity_pos content ext : 1 <= calculateComplexity content ext.
Proof. unfold calculateComplexity. lia. Qed.

(** What [analyzeFile] returns, by the outcome of the two file-system
    calls. *)
Lemma analyzeFile_cases h uri :
  analyzeFile h uri =
  match fs_stat h (uri_toString uri) with
  | inl error => sentinel h error
  | inr stat =>
      match fs_readFile h (uri_toString uri) with
      | inl error => sentinel h error
      | inr text =>
          let assessed :=
            assessHealth (now h) (countLines text) (stat_size stat)
              (calculateComplexity text (uri_ext uri)) (stat_mtime stat)
              (healthThresholds h) in
          {| lines := countLines text;
             size := stat_size stat;
             complexity := calculateComplexity text (uri_ext uri);
             lastModified := stat_mtime stat;
             type := getFileType (uri_ext uri) (uri_basename_lc uri);
             health := fst assessed;
             issues := snd assessed |}
      end
  end.
Proof.
  unfold analyzeFile, analyzeFile_body, try_catch, bind, ret.
  destruct (fs_stat h (uri_toString uri)) as [error | stat]; [reflexivity |].
  destruct (fs_readFile h (uri_toString uri)) as [error | text];
    [reflexivity |].
  cbv zeta. destruct (assessHealth _ _ _ _ _ _). reflexivity.
Qed.

(** C3 includes the record of a file that cannot be read; that record has
    complexity 0. *)
Lemma complexity_at_least_one_counterexample :
  complexity (analyzeFile Examples.workspace Examples.file_gone) = 0
  /\ ~ 1 <= complexity (analyzeFile Examples.workspace Examples.file_gone).
Proof. vm_compute. split; [reflexivity | intros H; apply H; reflexivity]. Qed.

(** C3, amended.  The metrics of a file that was stat'd and read have
    complexity at least 1; the record produced when the file cannot be
    stat'd or read has complexity 0. *)
Theorem complexity_at_least_one_when_read :
  forall h uri,
    match fs_stat h (uri_toString uri), fs_readFile h (uri_toString uri) with
    | inr _, inr _ => 1 <= complexity (analyzeFile h uri)
    | _, _ => complexity (analyzeFile h uri) = 0
    end.
Proof.
  intros h uri. rewrite analyzeFile_cases.
  destruct (fs_stat h (uri_toString uri)) as [error | stat];
    destruct (fs_readFile h (uri_toString uri)) as [error' | text];
    try reflexivity.
  cbv zeta. cbn [complexity]. apply calculateComplexity_pos.
Qed.

(** C4.  [analyzeFile] is a total function.  When the file cannot be
    stat'd or read it returns the record with no lines, size 0,
    complexity 0, type "unknown", health critical and one issue that
    reports the failure; otherwise it returns the metrics computed from
    the file.  A scan that starts with an empty cache gives every
    enumerated file a plant item with that file's own result, whatever
    happens to the other files of the scan. *)
Theorem analyzeFile_failure_is_local :
  forall h allFiles uri,
    analyzeFile h uri =
    match fs_stat h (uri_toString uri), fs_readFile h (uri_toString uri) with
    | inr stat, inr text =>
        let assessed :=
          assessHealth (now h) (countLines text) (stat_size stat)
            (calculateComplexity text (uri_ext uri)) (stat_mtime stat)
            (healthThresholds h) in
        {| lines := countLines text;
           size := stat_size stat;
           complexity := calculateComplexity text (uri_ext uri);
           lastModified := stat_mtime stat;
           type := getFileType (uri_ext uri) (uri_basename_lc uri);
           health := fst assessed;
           issues := snd assessed |}
    | inl error, _ | inr _, inl error =>
        {| lines := 0; size := 0; complexity := 0; lastModified := now h;
           type := "unknown"; health := critical;
           issues := ["Failed to analyze: " +:+
                      match error with
                      | ErrorObject message => message
                      | OtherValue => "Unknown error"
                      end] |}
    end
    /\ fst (analyzeAll h all ∅ (uniqueFiles allFiles)) =
       map (fun file => newPlantItem file (analyzeFile h file))
           (uniqueFiles allFiles).
Proof.
  intros h allFiles uri. split.
  - rewrite analyzeFile_cases.
    destruct (fs_stat h (uri_toString uri)) as [error | stat];
      destruct (fs_readFile h (uri_toString uri)) as [error' | text];
      reflexivity.
  - rewrite analyzeAll_all by apply uniqueFiles_NoDup.
    apply map_ext. intros file. unfold cachedMetrics.
    rewrite lookup_empty. reflexivity.
Qed.

(** ** ChangeDebouncer *)

Lemma filter_none {A} (P : A -> Prop) `{forall x, Decision (P x)} (l : list A) :
  Forall (fun x => ~ P x) l -> filter P l = [].
Proof.
  induction 1 as [| x l Hx _ IH]; [reflexivity |].
  rewrite filter_cons, decide_False by exact Hx. exact IH.
Qed.

Lemma filter_every {A} (P : A -> Prop) `{forall x, Decision (P x)} (l : list A) :
  Forall P l -> filter P l = l.
Proof.
  induction 1 as [| x l Hx _ IH]; [reflexivity |].
  rewrite filter_cons, decide_True by exact Hx. f_equal. exact IH.
Qed.

(** While nothing is due the event loop only moves the clock. *)
Lemma advance_not_due t w :
  Forall (fun timer => t < snd timer) (timers w) ->
  advance t w =
  {| clock := Z.max (clock w) t; timers := timers w;
     nextHandle := nextHandle w; debounceTimer := debounceTimer w;
     provider := provider w; refreshed := refreshed w |}.
Proof.
  intros Hlater. unfold advance.
  rewrite (filter_none (fun timer => snd timer <= t)),
          (filter_every (fun timer => t < snd timer)); [reflexivity | exact Hlater |].
  eapply Forall_impl; [exact Hlater |]. simpl. intros timer Hlt. lia.
Qed.

(** A notification in a quiet state leaves exactly its own timer. *)
Lemma notify_Quiet delay w t :
  Quiet w t ->
  Armed delay (notify delay w t) t
  /\ refreshed (notify delay w t) = refreshed w.
Proof.
  intros [Hclock Hpending]. unfold notify.
  rewrite advance_not_due
    by (eapply Forall_impl; [exact Hpending |]; simpl; tauto).
  unfold debouncedRefresh. cbn [debounceTimer].
  assert (Hcleared :
    timers (match debounceTimer w with
            | Some handle =>
                clearTimeout handle
                  {| clock := Z.max (clock w) t; timers := timers w;
                     nextHandle := nextHandle w;
                     debounceTimer := debounceTimer w;
                     provider := provider w; refreshed := refreshed w |}
            | None =>
                {| clock := Z.max (clock w) t; timers := timers w;
                   nextHandle := nextHandle w;
                   debounceTimer := debounceTimer w;
                   provider := provider w; refreshed := refreshed w |}
            end) = []).
  { destruct (debounceTimer w) as [handle |] eqn:Hfield; cbn [clearTimeout timers].
    - apply filter_none. eapply Forall_impl; [exact Hpending |].
      simpl. intros timer [Hsame _] Hdiff. congruence.
    - destruct Hpending as [| timer rest [Hsame _] _];
        [reflexivity | discriminate]. }
  destruct (debounceTimer w) as [handle |]; unfold setTimeout;
    cbn [clearTimeout clock timers nextHandle debounceTimer provider refreshed]
      in *; rewrite Hcleared; (split; [| reflexivity]);
    exists (nextHandle w); cbn [timers debounceTimer clock];
    replace (Z.max (clock w) t) with t by lia; repeat split.
Qed.

Lemma Armed_Quiet delay w t gap :
  Armed delay w t -> 0 <= gap < delay -> Quiet w (t + gap).
Proof.
  intros [handle [Htimers [Hfield Hclock]]] Hgap. split; [lia |].
  rewrite Htimers. repeat constructor; simpl; [exact Hfield | lia].
Qed.

Lemma burst_cons delay w t0 gap gaps :
  burst delay w t0 (gap :: gaps)
  = burst delay (notify delay w t0) (t0 + gap) gaps.
Proof. reflexivity. Qed.

(** A burst whose notifications each arrive within the quiet window of the
    one before leaves one timer, set by the last notification, and runs no
    refresh on the way. *)
Lemma burst_Armed delay gaps :
  Forall (fun gap => 0 <= gap < delay) gaps ->
  forall w t0,
    Quiet w t0 ->
    Armed delay (burst delay w t0 gaps) (lastArrival t0 gaps)
    /\ refreshed (burst delay w t0 gaps) = refreshed w.
Proof.
  induction 1 as [| gap gaps Hgap _ IH]; intros w t0 Hquiet.
  - apply notify_Quiet, Hquiet.
  - rewrite burst_cons. unfold lastArrival. simpl.
    destruct (notify_Quiet delay w t0 Hquiet) as [Harmed Hlog].
    destruct (IH (notify delay w t0) (t0 + gap)
                (Armed_Quiet _ _ _ _ Harmed Hgap)) as [Harmed' Hlog'].
    split; [exact Harmed' | congruence].
Qed.

(** The pending timer runs [refresh] once, when it is due. *)
Lemma advance_Armed delay w t T :
  Armed delay w t -> 0 <= delay ->
  refreshed (advance T w) =
    (if t + delay <=? T then refreshed w ++ [t + delay] else refreshed w)
  /\ (t + delay <= T -> timers (advance T w) = []).
Proof.
  intros [handle [Htimers [Hfield Hclock]]] Hdelay.
  destruct (Z.leb_spec (t + delay) T) as [Hdue | Hearly].
  - unfold advance. rewrite Htimers.
    rewrite !filter_cons, !filter_nil. cbn [snd].
    rewrite (decide_True (P := t + delay <= T)) by exact Hdue.
    rewrite (decide_False (P := T < t + delay)) by lia.
    cbn [sort foldr sort_insert foldl runCallbackAt refresh clock timers
         refreshed snd].
    split; [| reflexivity].
    replace (Z.max (clock w) (t + delay)) with (t + delay) by lia.
    reflexivity.
  - rewrite advance_not_due
      by (rewrite Htimers; repeat constructor; simpl; lia).
    split; [reflexivity | lia].
Qed.

(** C9.  A burst of one or more change notifications, each within the
    quiet window of the one before and starting when no timer is pending,
    runs [refresh] exactly once: no refresh runs during the burst, none
    before the quiet window has passed since the last notification, and
    one, at the end of that window, from then on; after it no timer is
    left pending. *)
Theorem debounce_burst_single_refresh :
  forall delay w t0 gaps,
    0 <= delay ->
    clock w <= t0 ->
    timers w = [] ->
    Forall (fun gap => 0 <= gap < delay) gaps ->
    let w' := burst delay w t0 gaps in
    let fire := lastArrival t0 gaps + delay in
    lastArrival t0 gaps <= fire
    /\ refreshed w' = refreshed w
    /\ (forall T, T < fire -> refreshed (advance T w') = refreshed w)
    /\ (forall T, fire <= T ->
          refreshed (advance T w') = refreshed w ++ [fire]
          /\ timers (advance T w') = []).
Proof.
  intros delay w t0 gaps Hdelay Hclock Hidle Hgaps. cbv zeta.
  assert (Hquiet : Quiet w t0).
  { split; [exact Hclock | rewrite Hidle; constructor]. }
  destruct (burst_Armed delay gaps Hgaps w t0 Hquiet) as [Harmed Hlog].
  split; [lia |]. split; [exact Hlog |]. split.
  - intros T HT.
    destruct (advance_Armed delay _ _ T Harmed Hdelay) as [Hfired _].
    rewrite Hfired, Hlog.
    destruct (Z.leb_spec (lastArrival t0 gaps + delay) T); [lia | reflexivity].
  - intros T HT.
    destruct (advance_Armed delay _ _ T Harmed Hdelay) as [Hfired Hnone].
    split; [| apply Hnone, HT].
    rewrite Hfired, Hlog.
    destruct (Z.leb_spec (lastArrival t0 gaps + delay) T); [reflexivity | lia].
Qed.

Lemma debounce_burst_single_refresh_witness :
  let gaps := [10; 10; 10; 10; 10; 10; 10; 10; 10] in
  let w' := burst 300 (initialWorld 0) 0 gaps in
  let fire := lastArrival 0 gaps + 300 in
  lastArrival 0 gaps <= fire
  /\ refreshed w' = refreshed (initialWorld 0)
  /\ (forall T, T < fire -> refreshed (advance T w') = refreshed (initialWorld 0))
  /\ (forall T, fire <= T ->
        refreshed (advance T w') = refreshed (initialWorld 0) ++ [fire]
        /\ timers (advance T w') = []).
Proof.
  apply (debounce_burst_single_refresh 300 (initialWorld 0) 0
           [10; 10; 10; 10; 10; 10; 10; 10; 10]).
  - lia.
  - simpl. lia.
  - reflexivity.
  - repeat constructor; lia.
Defined.


(** * Further properties of the code *)

(** ** MetricExtractor *)

Lemma map_get_In m k v : map_get m k = Some v -> In v (map snd m).
Proof.
  induction m as [| [k' v'] m IH]; simpl; [discriminate |].
  destruct (bool_decide (k' = k)).
  - intros [= ->]. left. reflexivity.
  - intros Hget. right. apply IH, Hget.
Qed.

Lemma FILE_TYPE_ICONS_values :
  Forall (fun v => v <> EmptyString /\ v <> "unknown"%string)
         (map snd FILE_TYPE_ICONS).
Proof. apply (bool_decide_unpack _). vm_compute. exact I. Qed.

Lemma getFileType_cases ext basename :
  getFileType ext basename = "file"%string
  \/ In (getFileType ext basename) (map snd FILE_TYPE_ICONS).
Proof.
  unfold getFileType, or_else.
  destruct (map_get FILE_TYPE_ICONS ext) as [v |] eqn:Hext.
  - destruct (bool_decide (v = EmptyString)) eqn:Hv.
    + apply bool_decide_eq_true in Hv. subst v.
      apply map_get_In in Hext.
      pose proof FILE_TYPE_ICONS_values as Hvalues.
      rewrite Forall_forall in Hvalues.
      apply list_elem_of_In, Hvalues in Hext. destruct Hext as [Hne _].
      contradiction.
    + right. eapply map_get_In, Hext.
  - destruct (map_get FILE_TYPE_ICONS basename) as [v |] eqn:Hbase;
      [| left; reflexivity].
    destruct (bool_decide (v = EmptyString)); [left; reflexivity |].
    right. eapply map_get_In, Hbase.
Qed.

Lemma getFileType_known ext basename :
  getFileType ext basename <> EmptyString
  /\ getFileType ext basename <> "unknown"%string.
Proof.
  destruct (getFileType_cases ext basename) as [-> | Hin].
  - split; discriminate.
  - pose proof FILE_TYPE_ICONS_values as Hvalues.
    rewrite Forall_forall in Hvalues.
    apply Hvalues, list_elem_of_In, Hin.
Qed.

(** X1.  [getFileType] never answers with the empty string or with "unknown",
    so the type "unknown" marks exactly the files that could not be
    stat'd or read. *)
Theorem unknown_type_marks_failure :
  forall h uri,
    (forall ext basename,
        getFileType ext basename <> EmptyString
        /\ getFileType ext basename <> "unknown"%string)
    /\ (type (analyzeFile h uri) = "unknown"%string <->
        match fs_stat h (uri_toString uri), fs_readFile h (uri_toString uri) with
        | inr _, inr _ => False
        | _, _ => True
        end).
Proof.
  intros h uri. split; [apply getFileType_known |].
  rewrite analyzeFile_cases.
  destruct (fs_stat h (uri_toString uri)) as [error | stat];
    destruct (fs_readFile h (uri_toString uri)) as [error' | text];
    cbv zeta; cbn [type sentinel]; try tauto.
  split; [| contradiction].
  intros Htype. exact (proj2 (getFileType_known _ _) Htype).
Qed.

(** X2.  The extension decides the type whenever the table knows it: the
    entries for whole file names ("package.json", "pom.xml",
    "cargo.toml") are only consulted for an extension that is not in
    the table. *)
Theorem getFileType_extension_first :
  forall ext basename t,
    map_get FILE_TYPE_ICONS ext = Some t ->
    getFileType ext basename = t.
Proof.
  intros ext basename t Hext. unfold getFileType, or_else. rewrite Hext.
  destruct (bool_decide_reflect (t = EmptyString)) as [-> | _];
    [| reflexivity].
  apply map_get_In in Hext.
  pose proof FILE_TYPE_ICONS_values as Hvalues.
  rewrite Forall_forall in Hvalues.
  apply list_elem_of_In, Hvalues in Hext. destruct Hext as [Hne _].
  contradiction.
Qed.

Lemma getFileType_extension_first_witness :
  getFileType ".json" "package.json" = "json"%string.
Proof.
  apply (getFileType_extension_first ".json" "package.json" "json").
  reflexivity.
Defined.

(** X3.  A text has at least one line, and joining two texts joins the last
    line of the first with the first line of the second. *)
Theorem countLines_append :
  forall a b,
    1 <= countLines a
    /\ countLines (a +:+ b) = countLines a + countLines b - 1.
Proof.
  intros a b. induction a as [| c a [IHpos IHapp]].
  - change (EmptyString +:+ b) with b. simpl. split; lia.
  - change (String c a +:+ b) with (String c (a +:+ b)). simpl.
    rewrite IHapp. destruct (bool_decide (c = "010"%char)); split; lia.
Qed.

Lemma fold_case_idem c : Regex.fold_case (Regex.fold_case c) = Regex.fold_case c.
Proof. destruct c as [[] [] [] [] [] [] [] []]; reflexivity. Qed.

Lemma is_word_fold_case c : Regex.is_word (Regex.fold_case c) = Regex.is_word c.
Proof. destruct c as [[] [] [] [] [] [] [] []]; reflexivity. Qed.

Lemma is_word_opt_lowerOpt o : Regex.is_word_opt (lowerOpt o) = Regex.is_word_opt o.
Proof. destruct o; simpl; [apply is_word_fold_case | reflexivity]. Qed.

Lemma head_lowerAscii s : Regex.head (lowerAscii s) = lowerOpt (Regex.head s).
Proof. destruct s; reflexivity. Qed.

Lemma boundary_lowerOpt prev next :
  Regex.boundary (lowerOpt prev) (lowerOpt next) = Regex.boundary prev next.
Proof. unfold Regex.boundary. rewrite !is_word_opt_lowerOpt. reflexivity. Qed.

Lemma literal_ci_lowerAscii kw :
  forall prev s,
    Regex.literal_ci kw (lowerOpt prev) (lowerAscii s) =
    match Regex.literal_ci kw prev s with
    | Some (last, rest) => Some (lowerOpt last, lowerAscii rest)
    | None => None
    end.
Proof.
  induction kw as [| k kw IH]; intros prev s; simpl; [reflexivity |].
  destruct s as [| c s]; simpl; [reflexivity |].
  rewrite fold_case_idem.
  destruct (bool_decide (Regex.fold_case k = Regex.fold_case c));
    [| reflexivity].
  apply (IH (Some c) s).
Qed.

Lemma keyword_CaseBlind kw : CaseBlind (Regex.keyword kw).
Proof.
  intros prev s. unfold Regex.keyword.
  rewrite head_lowerAscii, boundary_lowerOpt, literal_ci_lowerAscii.
  destruct (Regex.boundary prev (Regex.head s)); [| reflexivity].
  destruct (Regex.literal_ci kw prev s) as [[last rest] |]; [| reflexivity].
  rewrite head_lowerAscii, boundary_lowerOpt. reflexivity.
Qed.

Lemma punctuation_CaseBlind : CaseBlind Regex.punctuation.
Proof.
  intros prev s. destruct s as [| c s]; [reflexivity |].
  destruct c as [[] [] [] [] [] [] [] []]; try reflexivity.
  destruct s as [| d s]; [reflexivity |].
  destruct d as [[] [] [] [] [] [] [] []]; reflexivity.
Qed.

Lemma count_from_CaseBlind re :
  CaseBlind re ->
  forall s skip prev,
    Regex.count_from re skip (lowerOpt prev) (lowerAscii s)
    = Regex.count_from re skip prev s.
Proof.
  intros Hblind. induction s as [| c s IH]; intros skip prev; simpl;
    [reflexivity |].
  destruct skip as [| k].
  - change (String (Regex.fold_case c) (lowerAscii s))
      with (lowerAscii (String c s)).
    rewrite Hblind.
    destruct (re prev (String c s)) as [len |];
      rewrite (IH _ (Some c)); reflexivity.
  - apply (IH k (Some c)).
Qed.

Lemma count_CaseBlind re s :
  CaseBlind re -> Regex.count re (lowerAscii s) = Regex.count re s.
Proof. intros Hblind. apply (count_from_CaseBlind re Hblind s 0%nat None). Qed.

Lemma complexityPatterns_CaseBlind : Forall CaseBlind complexityPatterns.
Proof.
  unfold complexityPatterns.
  repeat constructor; (apply keyword_CaseBlind || apply punctuation_CaseBlind).
Qed.

Lemma languagePatterns_CaseBlind ext : Forall CaseBlind (languagePatterns ext).
Proof.
  unfold languagePatterns.
  destruct (_ || _); [repeat constructor; apply keyword_CaseBlind |].
  destruct (bool_decide _); repeat constructor; apply keyword_CaseBlind.
Qed.

Lemma foldl_counts_CaseBlind patterns s :
  Forall CaseBlind patterns ->
  forall acc,
    foldl (fun acc re => acc + Regex.count re (lowerAscii s)) acc patterns
    = foldl (fun acc re => acc + Regex.count re s) acc patterns.
Proof.
  induction 1 as [| re patterns Hre _ IH]; intros acc; simpl; [reflexivity |].
  rewrite (count_CaseBlind re s Hre). apply IH.
Qed.

Lemma rawComplexity_lowerAscii content ext :
  rawComplexity (lowerAscii content) ext = rawComplexity content ext.
Proof.
  unfold rawComplexity. cbv zeta.
  rewrite (foldl_counts_CaseBlind _ _ complexityPatterns_CaseBlind).
  apply foldl_counts_CaseBlind, languagePatterns_CaseBlind.
Qed.

(** X4.  The complexity score does not depend on the case of ASCII letters:
    two texts that differ only in letter case score the same (every
    keyword pattern carries the [i] flag, and the punctuation pattern
    names no letter). *)
Theorem complexity_ignores_letter_case :
  forall content1 content2 ext,
    lowerAscii content1 = lowerAscii content2 ->
    calculateComplexity content1 ext = calculateComplexity content2 ext.
Proof.
  intros content1 content2 ext Hsame. unfold calculateComplexity.
  rewrite <- (rawComplexity_lowerAscii content1),
          <- (rawComplexity_lowerAscii content2), Hsame.
  reflexivity.
Qed.

Lemma complexity_ignores_letter_case_witness :
  calculateComplexity "IF (x) { Return [1] } ELSE { y }" ".ts"
  = calculateComplexity "if (X) { return [1] } else { Y }" ".ts".
Proof.
  apply (complexity_ignores_letter_case
           "IF (x) { Return [1] } ELSE { y }"
           "if (X) { return [1] } else { Y }" ".ts").
  reflexivity.
Defined.

Lemma count_from_nonneg re :
  forall s skip prev, 0 <= Regex.count_from re skip prev s.
Proof.
  induction s as [| c s IH]; intros skip prev; simpl; [lia |].
  destruct skip as [| k]; [| apply IH].
  destruct (re prev (String c s)) as [len |].
  - pose proof (IH (Nat.pred len) (Some c)). lia.
  - apply IH.
Qed.

Lemma foldl_counts_grow content patterns :
  forall acc,
    acc <= foldl (fun acc re => acc + Regex.count re content) acc patterns.
Proof.
  induction patterns as [| re patterns IH]; intros acc; simpl; [lia |].
  pose proof (count_from_nonneg re content 0%nat None) as Hre.
  change (0 <= Regex.count re content) in Hre.
  pose proof (IH (acc + Regex.count re content)). lia.
Qed.

Lemma languagePatterns_other ext :
  ext ∉ languageExtensions -> languagePatterns ext = [].
Proof.
  intros Hother. unfold languagePatterns, languageExtensions in *.
  repeat match goal with
         | |- context [bool_decide (ext = ?e)] =>
             destruct (bool_decide_reflect (ext = e)) as [-> | ?];
               [exfalso; apply Hother; repeat constructor |]
         end.
  reflexivity.
Qed.

(** X5.  The patterns that depend on the extension only add to the score: a
    text scores at least as much under any extension as under an
    extension without patterns of its own, and never less than 1. *)
Theorem language_patterns_only_add :
  forall content plain ext,
    plain ∉ languageExtensions ->
    1 <= calculateComplexity content plain
      <= calculateComplexity content ext.
Proof.
  intros content plain ext Hplain. unfold calculateComplexity, rawComplexity.
  cbv zeta. rewrite (languagePatterns_other plain Hplain). simpl foldl at 1.
  split; [lia |].
  apply Z.max_le_compat_l, Z.div_le_mono; [lia |].
  apply foldl_counts_grow.
Qed.

Lemma language_patterns_only_add_witness :
  1 <= calculateComplexity "class A: def f(): pass" ".txt"
    <= calculateComplexity "class A: def f(): pass" ".py".
Proof.
  apply (language_patterns_only_add "class A: def f(): pass" ".txt" ".py").
  unfold languageExtensions. rewrite !not_elem_of_cons.
  repeat split; (discriminate || apply not_elem_of_nil).
Defined.

(** ** HealthClassifier *)

Lemma claimedScore_mono_size now size1 size2 complexity lastModified th :
  size1 <= size2 ->
  claimedScore now size1 complexity lastModified th
  <= claimedScore now size2 complexity lastModified th.
Proof.
  intros Hle. unfold claimedScore. rewrite !Z.geb_leb.
  assert (Hkb : size1 / 1024 <= size2 / 1024) by (apply Z.div_le_mono; lia).
  destruct (Z.leb_spec (lvl_critical (th_size th)) (size1 / 1024)),
    (Z.leb_spec (lvl_critical (th_size th)) (size2 / 1024)),
    (Z.leb_spec (lvl_warning (th_size th)) (size1 / 1024)),
    (Z.leb_spec (lvl_warning (th_size th)) (size2 / 1024)); lia.
Qed.

Lemma claimedScore_mono_age now size complexity modified1 modified2 th :
  modified2 <= modified1 ->
  claimedScore now size complexity modified1 th
  <= claimedScore now size complexity modified2 th.
Proof.
  intros Hle. unfold claimedScore. rewrite !Z.geb_leb.
  assert (Hdays : (now - modified1) / 86400000 <= (now - modified2) / 86400000)
    by (apply Z.div_le_mono; lia).
  destruct (Z.leb_spec (lvl_critical (th_age th)) ((now - modified1) / 86400000)),
    (Z.leb_spec (lvl_critical (th_age th)) ((now - modified2) / 86400000));
    lia.
Qed.

(** X6.  The score, and with it the verdict, never improves when a file grows
    or when it was last modified earlier, everything else being equal;
    this holds for all thresholds. *)
Theorem healthScore_monotonic_in_size_and_age :
  forall now lines size1 size2 complexity modified1 modified2 th,
    size1 <= size2 ->
    modified2 <= modified1 ->
    healthScore now lines size1 complexity modified1 th
    <= healthScore now lines size2 complexity modified2 th
    /\ rank (fst (assessHealth now lines size1 complexity modified1 th))
       <= rank (fst (assessHealth now lines size2 complexity modified2 th)).
Proof.
  intros now lines size1 size2 complexity modified1 modified2 th Hsize Hage.
  rewrite !assessHealth_unfold. cbn [fst].
  unfold healthScore. rewrite !assessState_claimed. cbn [fst].
  assert (Hmono :
    claimedScore now size1 complexity modified1 th
    <= claimedScore now size2 complexity modified2 th).
  { etransitivity; [apply claimedScore_mono_size, Hsize |].
    apply claimedScore_mono_age, Hage. }
  split; [exact Hmono | apply verdict_mono, Hmono].
Qed.

Lemma healthScore_monotonic_in_size_and_age_witness :
  healthScore (100 * msPerDay) 1 1024 5 (99 * msPerDay) defaultThresholds
  <= healthScore (100 * msPerDay) 1 (600 * 1024) 5 0 defaultThresholds
  /\ rank (fst (assessHealth (100 * msPerDay) 1 1024 5 (99 * msPerDay)
                  defaultThresholds))
     <= rank (fst (assessHealth (100 * msPerDay) 1 (600 * 1024) 5 0
                     defaultThresholds)).
Proof.
  apply (healthScore_monotonic_in_size_and_age (100 * msPerDay) 1 1024
           (600 * 1024) 5 (99 * msPerDay) 0 defaultThresholds);
    vm_compute; discriminate.
Defined.

(** X7.  A verdict other than healthy always comes with at least one issue;
    the score lies between 0 and 5.  (The converse fails: an age between
    the warning and critical thresholds records an issue for a healthy
    file.) *)
Theorem unhealthy_verdict_has_issue :
  forall now lines size complexity lastModified th,
    let result := assessHealth now lines size complexity lastModified th in
    0 <= healthScore now lines size complexity lastModified th <= 5
    /\ (fst result <> healthy -> snd result <> []).
Proof.
  intros now lines size complexity lastModified th. cbv zeta.
  rewrite assessHealth_unfold. cbn [fst snd].
  unfold healthScore. rewrite assessState_claimed. cbn [fst snd].
  split; [apply claimedScore_range |].
  intros Hverdict Hnone. apply Hverdict, verdict_healthy.
  revert Hnone. unfold claimedScore, claimedIssues. cbv zeta.
  split_conditions; cbn [app]; (discriminate || lia).
Qed.

Lemma unhealthy_verdict_has_issue_witness :
  fst (assessHealth 0 1 0 12 0 defaultThresholds) <> healthy
  /\ snd (assessHealth 0 1 0 12 0 defaultThresholds) <> [].
Proof.
  split; [vm_compute; discriminate |].
  apply (unhealthy_verdict_has_issue 0 1 0 12 0 defaultThresholds).
  vm_compute. discriminate.
Defined.

(** ** The scan: enumeration and cache *)

Lemma uniqueFiles_from_elem seen allFiles key :
  key ∈ map uri_toString (uniqueFiles_from seen allFiles)
  <-> key ∈ map uri_toString allFiles /\ key ∉ seen.
Proof.
  revert seen. induction allFiles as [| f rest IH]; intros seen; simpl.
  - rewrite elem_of_nil. tauto.
  - destruct (bool_decide_reflect (uri_toString f ∈ seen)) as [Hseen | Hnew].
    + rewrite IH, elem_of_cons. split; [tauto |].
      intros [[-> | Hrest] Hfresh]; [contradiction | tauto].
    + simpl. rewrite !elem_of_cons, IH, not_elem_of_union, elem_of_singleton.
      split.
      * intros [-> | [Hrest [Hne Hfresh]]]; tauto.
      * intros [[-> | Hrest] Hfresh]; [tauto |].
        destruct (decide (key = uri_toString f)); tauto.
Qed.

Lemma uniqueFiles_from_sublist seen allFiles :
  uniqueFiles_from seen allFiles `sublist_of` allFiles.
Proof.
  revert seen. induction allFiles as [| f rest IH]; intros seen; simpl.
  - constructor.
  - destruct (bool_decide (uri_toString f ∈ seen)).
    + apply sublist_cons, IH.
    + apply sublist_skip, IH.
Qed.

Lemma uniqueFiles_from_distinct seen allFiles :
  NoDup (map uri_toString allFiles) ->
  (forall key, key ∈ map uri_toString allFiles -> key ∉ seen) ->
  uniqueFiles_from seen allFiles = allFiles.
Proof.
  revert seen. induction allFiles as [| f rest IH]; intros seen Hnd Hfresh;
    simpl; [reflexivity |].
  simpl in Hnd. apply NoDup_cons in Hnd as [Hf Hrest].
  rewrite bool_decide_eq_false_2 by (apply Hfresh; simpl; constructor).
  f_equal. apply IH; [exact Hrest |].
  intros key Hkey. rewrite not_elem_of_union, elem_of_singleton. split.
  - intros ->. contradiction.
  - apply Hfresh. simpl. constructor. exact Hkey.
Qed.

(** X8.  The scan visits every enumerated file once: [uniqueFiles] keeps the
    first occurrence of each key in the order of the enumeration, loses
    no key, and leaves a list of distinct keys unchanged. *)
Theorem uniqueFiles_first_occurrences :
  forall allFiles,
    NoDup (map uri_toString (uniqueFiles allFiles))
    /\ (forall key, key ∈ map uri_toString (uniqueFiles allFiles)
                    <-> key ∈ map uri_toString allFiles)
    /\ uniqueFiles allFiles `sublist_of` allFiles
    /\ (NoDup (map uri_toString allFiles) -> uniqueFiles allFiles = allFiles).
Proof.
  intros allFiles. unfold uniqueFiles. split; [apply uniqueFiles_NoDup |].
  split; [| split].
  - intros key. rewrite uniqueFiles_from_elem. split; [tauto |].
    intros Hkey. split; [exact Hkey | apply not_elem_of_empty].
  - apply uniqueFiles_from_sublist.
  - intros Hnd. apply uniqueFiles_from_distinct; [exact Hnd |].
    intros key _. apply not_elem_of_empty.
Qed.

Lemma uniqueFiles_first_occurrences_witness :
  uniqueFiles [Examples.file_a; Examples.file_B]
  = [Examples.file_a; Examples.file_B].
Proof.
  apply (uniqueFiles_first_occurrences [Examples.file_a; Examples.file_B]).
  apply (bool_decide_unpack _). vm_compute. exact I.
Defined.

Lemma cachedMetrics_cache_lookup h cache f key :
  snd (cachedMetrics h cache f) !! key =
  if bool_decide (key = uri_toString f)
  then Some (fst (cachedMetrics h cache f))
  else cache !! key.
Proof.
  unfold cachedMetrics.
  destruct (cache !! uri_toString f) as [metrics |] eqn:Hf; simpl.
  - destruct (bool_decide_reflect (key = uri_toString f)) as [-> | _];
      [exact Hf | reflexivity].
  - destruct (bool_decide_reflect (key = uri_toString f)) as [-> | Hne].
    + apply lookup_insert_eq.
    + apply lookup_insert_ne. congruence.
Qed.

Lemma analyzeAll_cache_any h active files :
  forall cache,
    snd (analyzeAll h active cache files) = snd (analyzeAll h all cache files).
Proof.
  induction files as [| f rest IH]; intros cache; simpl; [reflexivity |].
  destruct (cachedMetrics h cache f) as [metrics cache1].
  specialize (IH cache1).
  destruct (analyzeAll h active cache1 rest) as [shown cacheA].
  destruct (analyzeAll h all cache1 rest) as [plantItems cacheB].
  simpl in *. destruct (filteredOut active metrics); exact IH.
Qed.

Lemma analyzeAll_cache_lookup h files :
  NoDup (map uri_toString files) ->
  forall cache key,
    snd (analyzeAll h all cache files) !! key =
    match list_find (fun f => uri_toString f = key) files with
    | Some (_, f) => Some (fst (cachedMetrics h cache f))
    | None => cache !! key
    end.
Proof.
  induction files as [| f rest IH]; intros Hnd cache key; [reflexivity |].
  simpl in Hnd. apply NoDup_cons in Hnd as [Hf Hrest].
  simpl analyzeAll. simpl list_find.
  destruct (cachedMetrics h cache f) as [metrics cache1] eqn:Hcached.
  specialize (IH Hrest cache1 key).
  destruct (analyzeAll h all cache1 rest) as [plantItems cache2].
  simpl in *. rewrite IH.
  assert (Hcache1 : cache1 = snd (cachedMetrics h cache f))
    by (rewrite Hcached; reflexivity).
  assert (Hmetrics : metrics = fst (cachedMetrics h cache f))
    by (rewrite Hcached; reflexivity).
  destruct (decide (uri_toString f = key)) as [Hkey | Hkey].
  - destruct (list_find (fun f0 => uri_toString f0 = key) rest)
      as [[i g] |] eqn:Hfind; simpl.
    + apply list_find_Some in Hfind as [Hg [Hgkey _]].
      exfalso. apply Hf. rewrite Hkey, <- Hgkey.
      apply list_elem_of_fmap. exists g. split; [reflexivity |].
      eapply list_elem_of_lookup_2, Hg.
    + rewrite Hcache1, cachedMetrics_cache_lookup.
      rewrite bool_decide_eq_true_2 by congruence. reflexivity.
  - destruct (list_find (fun f0 => uri_toString f0 = key) rest)
      as [[i g] |] eqn:Hfind; simpl.
    + apply list_find_Some in Hfind as [Hg [Hgkey _]].
      f_equal. rewrite Hcache1. apply cachedMetrics_other.
      congruence.
    + rewrite Hcache1, cachedMetrics_cache_lookup.
      rewrite bool_decide_eq_false_2 by congruence. reflexivity.
Qed.

Lemma list_find_key files f :
  NoDup (map uri_toString files) -> f ∈ files ->
  exists i, list_find (fun g => uri_toString g = uri_toString f) files
            = Some (i, f).
Proof.
  intros Hnd Hin. apply list_elem_of_lookup in Hin as [i Hi].
  exists i. apply list_find_Some. split; [exact Hi |].
  split; [reflexivity |].
  intros j g Hj Hlt Heq.
  assert (Hij : j = i); [| lia].
  eapply NoDup_lookup; [exact Hnd | |];
    rewrite list_lookup_fmap; [rewrite Hj | rewrite Hi]; simpl;
    [rewrite Heq |]; reflexivity.
Qed.

Lemma list_find_no_key files key :
  key ∉ map uri_toString files ->
  list_find (fun g => uri_toString g = key) files = None.
Proof.
  intros Hnot. apply list_find_None. apply Forall_forall.
  intros g Hg Heq. apply Hnot. rewrite <- Heq.
  apply list_elem_of_fmap. exists g. split; [reflexivity | exact Hg].
Qed.

(** X9.  After a scan the cache holds, for every enumerated file, the metrics
    the scan used for it, also when the health filter hid the file;
    entries for other keys are as before, and no entry that was in the
    cache is replaced.  Filter and grouping are left as they were. *)
Theorem getRootItems_fills_cache :
  forall h p allFiles,
    let p' := snd (getRootItems h p allFiles) in
    currentGroupBy p' = currentGroupBy p
    /\ currentHealthFilter p' = currentHealthFilter p
    /\ (forall file, file ∈ uniqueFiles allFiles ->
          fileCache p' !! uri_toString file
          = Some (fst (cachedMetrics h (fileCache p) file)))
    /\ (forall key, key ∉ map uri_toString allFiles ->
          fileCache p' !! key = fileCache p !! key)
    /\ (forall key metrics, fileCache p !! key = Some metrics ->
          fileCache p' !! key = Some metrics).
Proof.
  intros h p allFiles. cbv zeta.
  assert (Hfields :
    currentGroupBy (snd (getRootItems h p allFiles)) = currentGroupBy p
    /\ currentHealthFilter (snd (getRootItems h p allFiles))
       = currentHealthFilter p
    /\ fileCache (snd (getRootItems h p allFiles))
       = snd (analyzeAll h (currentHealthFilter p) (fileCache p)
                (uniqueFiles allFiles))).
  { unfold getRootItems.
    destruct (analyzeAll h (currentHealthFilter p) (fileCache p)
                (uniqueFiles allFiles)) as [plantItems cache].
    destruct (currentGroupBy p); repeat split; reflexivity. }
  destruct Hfields as [Hgroup [Hfilter Hcache]].
  rewrite analyzeAll_cache_any in Hcache.
  pose proof (uniqueFiles_NoDup allFiles) as Hnd.
  split; [exact Hgroup |]. split; [exact Hfilter |].
  rewrite Hcache. split; [| split].
  - intros file Hfile. rewrite (analyzeAll_cache_lookup h _ Hnd).
    destruct (list_find_key _ _ Hnd Hfile) as [i ->]. reflexivity.
  - intros key Hkey. rewrite (analyzeAll_cache_lookup h _ Hnd).
    rewrite list_find_no_key; [reflexivity |].
    intros Hin. apply Hkey.
    apply (uniqueFiles_first_occurrences allFiles), Hin.
  - intros key metrics Hheld. rewrite (analyzeAll_cache_lookup h _ Hnd).
    destruct (list_find _ _) as [[i f] |] eqn:Hfind; [| exact Hheld].
    apply list_find_Some in Hfind as [_ [Hkey _]].
    unfold cachedMetrics. rewrite Hkey, Hheld. reflexivity.
Qed.



Lemma provider_debouncedRefresh delay w :
  provider (debouncedRefresh delay w) = provider w.
Proof.
  unfold debouncedRefresh, setTimeout, clearTimeout.
  destruct (debounceTimer w); reflexivity.
Qed.

Lemma fileCache_onFileChanged delay uri fileName changeType w :
  fileCache (provider (onFileChanged delay uri fileName changeType w)) =
  if skipped fileName then fileCache (provider w)
  else delete (uri_toString uri) (fileCache (provider w)).
Proof.
  unfold onFileChanged. destruct (skipped fileName); [reflexivity |].
  rewrite provider_debouncedRefresh. reflexivity.
Qed.

(** X11.  A change notification makes the next scan analyse the changed file
    again and nothing else: every other file keeps the metrics the scan
    would have given it without the notification.  A notification for a
    file name of the skip lists changes nothing, so that file keeps its
    cached metrics. *)
Theorem changed_file_is_analysed_again :
  forall h delay uri fileName changeType w allFiles,
    let w' := onFileChanged delay uri fileName changeType w in
    fst (analyzeAll h all (fileCache (provider w')) (uniqueFiles allFiles)) =
    map (fun file =>
           newPlantItem file
             (if negb (skipped fileName)
                 && bool_decide (uri_toString file = uri_toString uri)
              then analyzeFile h file
              else fst (cachedMetrics h (fileCache (provider w)) file)))
        (uniqueFiles allFiles).
Proof.
  intros h delay uri fileName changeType w allFiles. cbv zeta.
  rewrite analyzeAll_all by apply uniqueFiles_NoDup.
  rewrite fileCache_onFileChanged.
  apply map_ext. intros file. f_equal.
  destruct (skipped fileName); [reflexivity |]. simpl.
  unfold cachedMetrics.
  destruct (bool_decide_reflect (uri_toString file = uri_toString uri))
    as [Heq | Hne].
  - rewrite Heq, lookup_delete_eq. reflexivity.
  - rewrite lookup_delete_ne by congruence.
    destruct (fileCache (provider w) !! uri_toString file); reflexivity.
Qed.

(** ** The tree *)

Lemma leaves_of_plants h p allFiles (items : list PlantItem) :
  flat_map
    (fun root =>
       match root with
       | Plant item => [item]
       | Group _ => plantsOf (fst (getChildren h p true allFiles (Some root)))
       end) (map Plant items) = items.
Proof.
  induction items as [| item items IH]; simpl; [reflexivity |].
  f_equal. exact IH.
Qed.

Lemma leaves_of_groups h p allFiles (groups : list GroupItem) :
  flat_map
    (fun root =>
       match root with
       | Plant item => [item]
       | Group _ => plantsOf (fst (getChildren h p true allFiles (Some root)))
       end) (map Group groups) = concat (map gi_children groups).
Proof.
  induction groups as [| g groups IH]; [reflexivity |].
  cbn [map flat_map concat]. rewrite IH. f_equal.
  unfold getChildren. cbn [negb fst]. apply plantsOf_Plant.
Qed.

Lemma shownUnder_passes active plantItems item :
  item ∈ shownUnder active plantItems ->
  filteredOut active (pi_metrics item) = false.
Proof.
  unfold shownUnder. intros Hin.
  apply list_elem_of_filter in Hin as [Hpass _]. exact Hpass.
Qed.

Lemma displayedFiles_Permutation h p allFiles :
  Permutation (displayedFiles h p true allFiles)
              (shownUnder (currentHealthFilter p)
                          (analyzedFiles h (fileCache p) allFiles)).
Proof.
  unfold displayedFiles.
  change (getChildren h p true allFiles None)
    with (getRootItems h p allFiles).
  rewrite <- analyzeAll_shown.
  destruct (decide (currentGroupBy p = by_none)) as [Hnone | Hmode].
  - rewrite (getRootItems_flat _ _ _ Hnone), leaves_of_plants.
    apply sort_Permutation.
  - rewrite (getRootItems_grouped _ _ _ Hmode), leaves_of_groups.
    apply groupItems_Permutation, Hmode.
Qed.

(** X12.  Whatever the grouping mode, the files that the tree shows, at the
    root or as the children of a group, are the enumerated files that
    pass the health filter, each once; every one of them is a leaf.
    Without a workspace folder the tree is empty. *)
Theorem tree_shows_the_filtered_files :
  forall h p allFiles,
    Permutation (displayedFiles h p true allFiles)
                (shownUnder (currentHealthFilter p)
                            (analyzedFiles h (fileCache p) allFiles))
    /\ (forall item, item ∈ displayedFiles h p true allFiles ->
          filteredOut (currentHealthFilter p) (pi_metrics item) = false
          /\ fst (getChildren h p true allFiles (Some (Plant item))) = [])
    /\ displayedFiles h p false allFiles = [].
Proof.
  intros h p allFiles.
  pose proof (displayedFiles_Permutation h p allFiles) as Hperm.
  split; [exact Hperm |]. split; [| reflexivity].
  intros item Hitem. split; [| reflexivity].
  rewrite Hperm in Hitem. eapply shownUnder_passes, Hitem.
Qed.

Lemma analyzedFiles_fresh h allFiles :
  analyzedFiles h ∅ allFiles =
  map (fun file => newPlantItem file (analyzeFile h file)) (uniqueFiles allFiles).
Proof.
  unfold analyzedFiles. apply map_ext. intros file.
  unfold cachedMetrics. rewrite lookup_empty. reflexivity.
Qed.

(** X13.  After [setHealthFilter] or [setGroupBy] the tree is built from a
    fresh analysis of every enumerated file: nothing of what the cache
    held before reaches the view, and the new setting is in force. *)
Theorem view_change_discards_cache :
  forall h w active groupBy allFiles,
    let fresh :=
      map (fun file => newPlantItem file (analyzeFile h file))
          (uniqueFiles allFiles) in
    Permutation
      (displayedFiles h (provider (setHealthFilter active w)) true allFiles)
      (shownUnder active fresh)
    /\ Permutation
         (displayedFiles h (provider (setGroupBy groupBy w)) true allFiles)
         (shownUnder (currentHealthFilter (provider w)) fresh)
    /\ currentGroupBy (provider (setGroupBy groupBy w)) = groupBy
    /\ currentGroupBy (provider (setHealthFilter active w))
       = currentGroupBy (provider w).
Proof.
  intros h w active groupBy allFiles. cbv zeta.
  rewrite <- analyzedFiles_fresh.
  repeat split; apply displayedFiles_Permutation.
Qed.


(** ** Groups *)

Lemma groups_push_new groups key item :
  groups_has groups key = false ->
  groups_push (groups_set_new groups key) key item = groups ++ [(key, [item])].
Proof.
  unfold groups_has, groups_set_new.
  induction groups as [| [k children] groups IH]; simpl.
  - intros _. rewrite bool_decide_eq_true_2 by reflexivity. reflexivity.
  - destruct (bool_decide (k = key)); simpl; [discriminate |].
    intros Hrest. rewrite (IH Hrest). reflexivity.
Qed.

Lemma groups_push_nonempty groups key item :
  Forall (fun entry => snd entry <> []) groups ->
  Forall (fun entry => snd entry <> []) (groups_push groups key item).
Proof.
  induction 1 as [| [k children] groups Hentry Htail IH]; simpl;
    [constructor |].
  destruct (bool_decide (k = key)); constructor; try assumption.
  simpl. intros Hnil. apply app_eq_nil in Hnil as [_ Hnil]. discriminate.
Qed.

Lemma addToGroups_nonempty groupBy groups item :
  Forall (fun entry => snd entry <> []) groups ->
  Forall (fun entry => snd entry <> []) (addToGroups groupBy groups item).
Proof.
  intros Hall. unfold addToGroups.
  destruct (groupKey groupBy item) as [key |]; [| exact Hall].
  destruct (groups_has groups key) eqn:Hhas.
  - apply groups_push_nonempty, Hall.
  - rewrite (groups_push_new _ _ _ Hhas). apply Forall_app.
    split; [exact Hall | repeat constructor; discriminate].
Qed.

Lemma collectGroups_nonempty groupBy items :
  Forall (fun entry => snd entry <> []) (collectGroups groupBy items).
Proof.
  unfold collectGroups.
  assert (Hstart : Forall (fun entry : string * list PlantItem =>
                             snd entry <> []) []) by constructor.
  revert Hstart. generalize (@nil (string * list PlantItem)).
  induction items as [| item items IH]; intros groups Hall; simpl;
    [exact Hall |].
  apply IH, addToGroups_nonempty, Hall.
Qed.

Lemma groupItems_as_sort h groupBy items :
  Permutation (groupItems h groupBy items)
    (map (fun entry =>
            newGroupItem (getGroupLabel groupBy (fst entry))
              (sort (byPlantLabel h) (snd entry))
              (getGroupIcon groupBy (fst entry)))
         (collectGroups groupBy items)).
Proof.
  unfold groupItems. rewrite sort_Permutation.
  erewrite map_ext; [reflexivity |]. intros [key children]. reflexivity.
Qed.

Lemma length_flat_nonempty (groups : Groups) :
  Forall (fun entry => snd entry <> []) groups ->
  (length groups <= length (flat groups))%nat.
Proof.
  unfold flat. induction 1 as [| [k children] groups Hentry _ IH]; simpl;
    [lia |].
  rewrite length_app. simpl in Hentry.
  destruct children; [contradiction | simpl; lia].
Qed.

Lemma collectGroups_none items : collectGroups by_none items = [].
Proof.
  unfold collectGroups.
  assert (Hsame : forall groups,
            foldl (addToGroups by_none) groups items = groups).
  { induction items as [| item items IH]; intros groups; simpl;
      [reflexivity | apply IH]. }
  apply Hsame.
Qed.

Lemma health_keys items :
  incl (map fst (collectGroups by_health items))
       ["healthy"; "warning"; "critical"]%string.
Proof.
  intros key Hkey. apply in_map_iff in Hkey as [[k children] [Heq Hentry]].
  simpl in Heq. subst k.
  pose proof (collectGroups_nonempty by_health items) as Hne.
  destruct (KeyedBy_collectGroups by_health items) as [_ Hkeyed].
  rewrite Forall_forall in Hne, Hkeyed.
  apply list_elem_of_In in Hentry.
  specialize (Hne _ Hentry). specialize (Hkeyed _ Hentry). simpl in *.
  destruct children as [| child children]; [contradiction |].
  apply Forall_cons in Hkeyed as [Hchild _]. simpl in Hchild.
  injection Hchild as <-.
  destruct (health (pi_metrics child)); simpl; tauto.
Qed.

(** X14.  No group is empty, so there are never more groups than items;
    grouping by health gives at most three groups; and the mode "none"
    gives no group at all. *)
Theorem groups_are_not_empty :
  forall h groupBy items,
    Forall (fun g => gi_children g <> []) (groupItems h groupBy items)
    /\ (length (groupItems h groupBy items) <= length items)%nat
    /\ (length (groupItems h by_health items) <= 3)%nat
    /\ groupItems h by_none items = [].
Proof.
  intros h groupBy items.
  pose proof (collectGroups_nonempty groupBy items) as Hne.
  split; [| split; [| split]].
  - rewrite groupItems_as_sort. apply Forall_map.
    eapply Forall_impl; [exact Hne |].
    intros [key children] Hchildren. simpl in *. intros Hnil.
    apply Hchildren.
    apply Permutation_nil. rewrite <- Hnil. apply sort_Permutation.
  - rewrite groupItems_as_sort, length_map.
    destruct (decide (groupBy = by_none)) as [-> | Hmode].
    + rewrite collectGroups_none. simpl. lia.
    + rewrite <- (flat_collectGroups groupBy items Hmode) at 2.
      apply length_flat_nonempty, Hne.
  - rewrite groupItems_as_sort, length_map.
    rewrite <- (length_map fst).
    change 3%nat with (length ["healthy"; "warning"; "critical"]%string).
    apply NoDup_incl_length; [| apply health_keys].
    apply NoDup_ListNoDup.
    exact (proj1 (KeyedBy_collectGroups by_health items)).
  - unfold groupItems. rewrite collectGroups_none. reflexivity.
Qed.

Lemma sorted_children_of_groups h groupBy (groups : Groups) :
  (forall a b, 0 < localeCompare h a b -> localeCompare h b a <= 0) ->
  Forall (fun g => Sorted (inOrder (byPlantLabel h)) (gi_children g))
    (map (fun entry =>
            newGroupItem (getGroupLabel groupBy (fst entry))
              (sort (byPlantLabel h) (snd entry))
              (getGroupIcon groupBy (fst entry)))
         groups).
Proof.
  intros Htotal. apply Forall_map, Forall_forall. intros entry _. simpl.
  apply sort_Sorted. intros a b. apply Htotal.
Qed.

(** X15.  The groups come in the order of [localeCompare] on their labels, and
    so do the children inside every group, for a collation that does not
    place two labels each strictly after the other. *)
Theorem groups_and_children_sorted :
  forall h groupBy items,
    (forall a b, 0 < localeCompare h a b -> localeCompare h b a <= 0) ->
    Sorted (inOrder (byGroupLabel h)) (groupItems h groupBy items)
    /\ Forall (fun g => Sorted (inOrder (byPlantLabel h)) (gi_children g))
              (groupItems h groupBy items).
Proof.
  intros h groupBy items Htotal. split.
  - unfold groupItems. apply sort_Sorted. intros a b. apply Htotal.
  - rewrite groupItems_as_sort. apply sorted_children_of_groups, Htotal.
Qed.

Lemma groups_and_children_sorted_witness :
  let items :=
    plantsOf (fst (getRootItems Examples.workspace (Examples.fresh by_none all)
                     [Examples.file_B; Examples.file_a; Examples.file_old])) in
  Sorted (inOrder (byGroupLabel Examples.workspace))
         (groupItems Examples.workspace by_folder items)
  /\ Forall (fun g => Sorted (inOrder (byPlantLabel Examples.workspace))
                             (gi_children g))
            (groupItems Examples.workspace by_folder items).
Proof.
  apply (groups_and_children_sorted Examples.workspace by_folder).
  exact letterCollation_total.
Defined.

(** ** Summary, report and displayed sizes *)

Lemma tier_counts (plantItems : list PlantItem) :
  countHealth healthy plantItems + countHealth warning plantItems
  + countHealth critical plantItems = Z.of_nat (length plantItems).
Proof.
  unfold countHealth, withHealth.
  induction plantItems as [| item rest IH]; [reflexivity |].
  rewrite !filter_cons.
  destruct (health (pi_metrics item)) eqn:Hhealth;
    repeat match goal with
           | |- context [decide (?a = ?b)] =>
               first [rewrite (decide_True (P := a = b)) by reflexivity
                     | rewrite (decide_False (P := a = b)) by discriminate]
           end;
    cbn [length]; lia.
Qed.

(** X16.  In the report and in the summary the three tier counts add up to the
    total, the report lists as many critical and warning files as it
    counts, and the summary (which feeds the status bar) carries the
    counts of the report. *)
Theorem report_counts_add_up :
  forall h p allFiles,
    let report := fst (exportReport h p allFiles) in
    let summary := fst (getGardenSummary h p allFiles) in
    rep_healthy report + rep_warning report + rep_critical report
    = rep_total report
    /\ Z.of_nat (length (rep_criticalFiles report)) = rep_critical report
    /\ Z.of_nat (length (rep_warningFiles report)) = rep_warning report
    /\ sum_total summary = rep_total report
    /\ sum_healthy summary = rep_healthy report
    /\ sum_warning summary = rep_warning report
    /\ sum_critical summary = rep_critical report.
Proof.
  intros h p allFiles. cbv zeta. unfold exportReport, getGardenSummary.
  destruct (getRootItems h p allFiles) as [items p'].
  unfold generateReport. cbn [fst rep_total rep_healthy rep_warning
    rep_critical rep_criticalFiles rep_warningFiles sum_total sum_healthy
    sum_warning sum_critical].
  rewrite !length_map.
  repeat split; try reflexivity. apply tier_counts.
Qed.

(** X17.  With a grouping mode set the report and the summary count no file at
    all, however many files the tree shows: the root items are groups,
    and both keep plant items only. *)
Theorem grouped_view_reports_no_files :
  forall h p allFiles,
    currentGroupBy p <> by_none ->
    fst (exportReport h p allFiles)
    = {| rep_total := 0; rep_healthy := 0; rep_warning := 0;
         rep_critical := 0; rep_totalSize := 0; rep_totalLines := 0;
         rep_complexity := 0; rep_criticalFiles := [];
         rep_warningFiles := [] |}
    /\ fst (getGardenSummary h p allFiles)
       = {| sum_total := 0; sum_healthy := 0; sum_warning := 0;
            sum_critical := 0 |}.
Proof.
  intros h p allFiles Hmode. split.
  - rewrite (exportReport_grouped h p allFiles Hmode). reflexivity.
  - unfold getGardenSummary.
    pose proof (getRootItems_grouped h p allFiles Hmode) as Hgrouped.
    destruct (getRootItems h p allFiles) as [items p']. simpl in Hgrouped.
    rewrite Hgrouped, plantsOf_Group. reflexivity.
Qed.

Lemma grouped_view_reports_no_files_witness :
  let allFiles :=
    [Examples.file_B; Examples.file_a; Examples.file_old; Examples.file_gone] in
  fst (exportReport Examples.workspace (Examples.fresh by_health all) allFiles)
  = {| rep_total := 0; rep_healthy := 0; rep_warning := 0;
       rep_critical := 0; rep_totalSize := 0; rep_totalLines := 0;
       rep_complexity := 0; rep_criticalFiles := [];
       rep_warningFiles := [] |}
  /\ fst (getGardenSummary Examples.workspace (Examples.fresh by_health all)
            allFiles)
     = {| sum_total := 0; sum_healthy := 0; sum_warning := 0;
          sum_critical := 0 |}.
Proof.
  apply (grouped_view_reports_no_files Examples.workspace
           (Examples.fresh by_health all)
           [Examples.file_B; Examples.file_a; Examples.file_old;
            Examples.file_gone]).
  simpl. discriminate.
Defined.

(** X18.  The size that the description of an item shows is rounded to the
    nearest kilobyte, while the classifier and its issue texts use whole
    kilobytes: the two differ by one exactly when the size is half a
    kilobyte or more past a whole one, so an item can read "500KB"
    without having reached a size threshold of 500. *)
Theorem displayed_size_is_rounded :
  forall h metrics,
    createDescription h ["size"%string] metrics
    = show (roundKB (size metrics)) +:+ "KB"
    /\ sizeKB (size metrics) <= roundKB (size metrics)
       <= sizeKB (size metrics) + 1
    /\ (roundKB (size metrics) = sizeKB (size metrics) + 1
        <-> 512 <= size metrics mod 1024).
Proof.
  intros h metrics. split; [reflexivity |].
  unfold roundKB, sizeKB.
  pose proof (Z.div_mod (size metrics) 1024 ltac:(lia)) as Hsplit.
  pose proof (Z.mod_pos_bound (size metrics) 1024 ltac:(lia)) as Hrange.
  set (q := size metrics / 1024) in *.
  set (r := size metrics mod 1024) in *.
  assert (Hround : (size metrics + 512) / 1024 = q + (r + 512) / 1024).
  { rewrite Hsplit.
    replace (1024 * q + r + 512) with ((r + 512) + q * 1024) by lia.
    rewrite Z.div_add by lia. lia. }
  rewrite Hround.
  destruct (Z_lt_le_dec r 512) as [Hlow | Hhigh].
  - rewrite (Z.div_small (r + 512) 1024) by lia. lia.
  - assert ((r + 512) / 1024 = 1); [| lia].
    symmetry. apply Z.div_unique with (r := r - 512); [left |]; lia.
Qed.

(** ** The exclusion patterns of the watchers *)

Lemma append_cons c a b : String c a +:+ b = String c (a +:+ b).
Proof. reflexivity. Qed.

Lemma append_nil b : EmptyString +:+ b = b.
Proof. reflexivity. Qed.

Lemma replaceStar_follows s :
  forall prev, starsFollowBracket prev (replaceStar s) = true.
Proof.
  induction s as [| c s IH]; intros prev; [reflexivity |].
  destruct c as [[] [] [] [] [] [] [] []];
    try (cbn [replaceStar starsFollowBracket];
         rewrite bool_decide_eq_false_2 by discriminate; apply IH).
  cbn [replaceStar]. rewrite !append_cons, append_nil.
  cbn [starsFollowBracket]. rewrite IH. reflexivity.
Qed.

Lemma replaceQuestion_follows s :
  forall prev prev',
    (prev = Some "]"%char -> prev' = Some "]"%char) ->
    starsFollowBracket prev s = true ->
    starsFollowBracket prev' (replaceQuestion s) = true.
Proof.
  induction s as [| c s IH]; intros prev prev' Hprev Hs; [reflexivity |].
  cbn [starsFollowBracket] in Hs. apply andb_true_iff in Hs as [Hc Hs].
  destruct (decide (c = "?"%char)) as [-> | Hquestion].
  - cbn [replaceQuestion]. rewrite !append_cons, append_nil.
    cbn [starsFollowBracket].
    rewrite (IH (Some "?"%char) (Some "]"%char)); [reflexivity | | exact Hs].
    discriminate.
  - assert (Hsame : replaceQuestion (String c s) = String c (replaceQuestion s)).
    { destruct c as [[] [] [] [] [] [] [] []]; try reflexivity.
      contradiction. }
    rewrite Hsame. cbn [starsFollowBracket].
    rewrite (IH (Some c) (Some c)) by (tauto || exact Hs).
    rewrite andb_true_r.
    destruct (bool_decide (c = "*"%char)); [| reflexivity].
    apply bool_decide_eq_true in Hc. apply bool_decide_eq_true_2, Hprev, Hc.
Qed.

Lemma replaceQuestion_clean s : noQuestionMark (replaceQuestion s) = true.
Proof.
  induction s as [| c s IH]; [reflexivity |].
  destruct c as [[] [] [] [] [] [] [] []];
    try (cbn [replaceQuestion noQuestionMark];
         rewrite bool_decide_eq_false_2 by discriminate; exact IH).
  cbn [replaceQuestion]. rewrite !append_cons, append_nil.
  cbn [noQuestionMark]. rewrite IH. reflexivity.
Qed.

Lemma starsFollowBracket_dollar s :
  forall prev,
    starsFollowBracket prev s = true ->
    starsFollowBracket prev (s +:+ "$") = true.
Proof.
  induction s as [| c s IH]; intros prev Hs.
  - reflexivity.
  - rewrite append_cons. cbn [starsFollowBracket] in *.
    apply andb_true_iff in Hs as [Hc Hs]. rewrite Hc, (IH _ Hs). reflexivity.
Qed.

Lemma noQuestionMark_dollar s :
  noQuestionMark s = true -> noQuestionMark (s +:+ "$") = true.
Proof.
  induction s as [| c s IH]; intros Hs; [reflexivity |].
  rewrite append_cons. cbn [noQuestionMark] in *.
  apply andb_true_iff in Hs as [Hc Hs]. rewrite Hc, (IH Hs). reflexivity.
Qed.

Lemma regexSource_shape pattern :
  starsFollowBracket None (regexSource pattern) = true
  /\ noQuestionMark (regexSource pattern) = true.
Proof.
  unfold regexSource, regexPattern. rewrite append_cons, append_nil. split.
  - cbn [starsFollowBracket]. simpl bool_decide. cbn [andb].
    apply starsFollowBracket_dollar.
    apply (replaceQuestion_follows _ (Some "^"%char) (Some "^"%char));
      [tauto | apply replaceStar_follows].
  - cbn [noQuestionMark]. simpl bool_decide. cbn [negb andb].
    apply noQuestionMark_dollar, replaceQuestion_clean.
Qed.

Lemma starsFollowBracket_get s :
  forall prev (i : nat),
    starsFollowBracket prev s = true ->
    String.get i s = Some "*"%char ->
    (i = 0%nat /\ prev = Some "]"%char)
    \/ exists k, i = S k /\ String.get k s = Some "]"%char.
Proof.
  induction s as [| c s IH]; intros prev i Hs Hget; [discriminate |].
  cbn [starsFollowBracket] in Hs. apply andb_true_iff in Hs as [Hc Hs].
  destruct i as [| i]; simpl in Hget.
  - injection Hget as ->. left. split; [reflexivity |].
    rewrite bool_decide_eq_true_2 in Hc by reflexivity.
    apply bool_decide_eq_true in Hc. exact Hc.
  - right.
    destruct (IH (Some c) i Hs Hget) as [[-> Hprev] | [k [-> Hk]]].
    + exists 0%nat. split; [reflexivity |]. simpl. exact Hprev.
    + exists (S k). split; [reflexivity |]. simpl. exact Hk.
Qed.

Lemma noQuestionMark_get s :
  forall (i : nat),
    noQuestionMark s = true -> String.get i s <> Some "?"%char.
Proof.
  induction s as [| c s IH]; intros i Hs Hget; [discriminate |].
  cbn [noQuestionMark] in Hs. apply andb_true_iff in Hs as [Hc Hs].
  destruct i as [| i]; simpl in Hget.
  - injection Hget as ->.
    rewrite bool_decide_eq_true_2 in Hc by reflexivity. discriminate.
  - exact (IH i Hs Hget).
Qed.

(** X19.  In the regular expression that [shouldExcludeFile] builds from a glob
    pattern, every ["*"] stands directly behind a ["]"] and no ["?"] is
    left: the [".*"] written for ["**"] never reaches the expression,
    because the replacement of ["*"] that follows rewrites its star as
    well. *)
Theorem exclusion_regex_has_no_free_star :
  forall pattern (i : nat),
    String.get i (regexSource pattern) <> Some "?"%char
    /\ (String.get i (regexSource pattern) = Some "*"%char ->
        exists k, i = S k
                  /\ String.get k (regexSource pattern) = Some "]"%char).
Proof.
  intros pattern i.
  destruct (regexSource_shape pattern) as [Hstars Hclean].
  split; [apply noQuestionMark_get, Hclean |].
  intros Hget.
  destruct (starsFollowBracket_get _ None i Hstars Hget)
    as [[_ Hnone] | Hbracket]; [discriminate | exact Hbracket].
Qed.

Lemma exclusion_regex_has_no_free_star_witness :
  regexSource "**/node_modules/**" = "^.[^/]*/node_modules/.[^/]*$"%string
  /\ exists k, 6%nat = S k
               /\ String.get k (regexSource "**/node_modules/**")
                  = Some "]"%char.
Proof.
  split; [reflexivity |].
  apply (exclusion_regex_has_no_free_star "**/node_modules/**" 6).
  reflexivity.
Defined.

(** ** Debouncer, timers and the life of a session *)

Lemma notify_after_due delay w tprev t :
  0 <= delay ->
  Armed delay w tprev ->
  tprev + delay <= t ->
  Armed delay (notify delay w t) t
  /\ refreshed (notify delay w t) = refreshed w ++ [tprev + delay].
Proof.
  intros Hdelay [handle [Htimers [Hfield Hclock]]] Hdue.
  unfold notify, advance. rewrite Htimers.
  rewrite !filter_cons, !filter_nil. cbn [snd].
  rewrite (decide_True (P := tprev + delay <= t)) by exact Hdue.
  rewrite (decide_False (P := t < tprev + delay)) by lia.
  cbn [sort foldr sort_insert foldl runCallbackAt refresh clock timers
       refreshed snd nextHandle debounceTimer provider].
  unfold debouncedRefresh. cbn [debounceTimer]. rewrite Hfield.
  unfold clearTimeout, setTimeout.
  cbn [clock timers nextHandle debounceTimer provider refreshed].
  rewrite filter_nil. cbn [app].
  replace (Z.max (Z.max (clock w) (tprev + delay)) t) with t by lia.
  replace (Z.max (clock w) (tprev + delay)) with (tprev + delay) by lia.
  split; [| reflexivity].
  exists (nextHandle w). repeat split.
Qed.

Lemma arrivals_split t0 gaps :
  arrivals t0 gaps = removelast (arrivals t0 gaps) ++ [lastArrival t0 gaps].
Proof.
  revert t0. induction gaps as [| gap gaps IH]; intros t0; [reflexivity |].
  change (arrivals t0 (gap :: gaps)) with (t0 :: arrivals (t0 + gap) gaps).
  change (lastArrival t0 (gap :: gaps)) with (lastArrival (t0 + gap) gaps).
  rewrite (IH (t0 + gap)) at 1.
  assert (Hne : arrivals (t0 + gap) gaps <> [])
    by (destruct gaps; discriminate).
  destruct (arrivals (t0 + gap) gaps) as [| t1 ts]; [contradiction |].
  reflexivity.
Qed.

Lemma spaced_after_armed delay gaps :
  0 <= delay ->
  Forall (fun gap => delay < gap) gaps ->
  forall w tprev t0,
    Armed delay w tprev ->
    tprev + delay <= t0 ->
    Armed delay (burst delay w t0 gaps) (lastArrival t0 gaps)
    /\ refreshed (burst delay w t0 gaps) =
       refreshed w ++ [tprev + delay]
       ++ map (fun t => t + delay) (removelast (arrivals t0 gaps)).
Proof.
  intros Hdelay. induction 1 as [| gap gaps Hgap _ IH];
    intros w tprev t0 Harmed Hdue.
  - change (burst delay w t0 []) with (notify delay w t0).
    cbn [arrivals removelast map app lastArrival foldl].
    apply (notify_after_due delay w tprev t0 Hdelay Harmed Hdue).
  - rewrite burst_cons. unfold lastArrival. simpl foldl.
    destruct (notify_after_due delay w tprev t0 Hdelay Harmed Hdue)
      as [Harmed' Hlog].
    destruct (IH (notify delay w t0) t0 (t0 + gap) Harmed' ltac:(lia))
      as [Hlast Hlog'].
    split; [exact Hlast |].
    rewrite Hlog', Hlog.
    change (arrivals t0 (gap :: gaps)) with (t0 :: arrivals (t0 + gap) gaps).
    assert (Hne : arrivals (t0 + gap) gaps <> [])
      by (destruct gaps; discriminate).
    destruct (arrivals (t0 + gap) gaps) as [| t1 ts] eqn:Harr;
      [contradiction |].
    cbn [removelast map]. rewrite <- !app_assoc. reflexivity.
Qed.

(** X20.  Notifications that are more than the quiet window apart are not
    coalesced: each of them gets a refresh of its own, the window after
    its arrival. *)
Theorem spaced_notifications_each_refresh :
  forall delay w t0 gaps T,
    0 <= delay ->
    clock w <= t0 ->
    timers w = [] ->
    Forall (fun gap => delay < gap) gaps ->
    lastArrival t0 gaps + delay <= T ->
    refreshed (advance T (burst delay w t0 gaps)) =
    refreshed w ++ map (fun t => t + delay) (arrivals t0 gaps).
Proof.
  intros delay w t0 gaps T Hdelay Hclock Hidle Hgaps HT.
  assert (Hquiet : Quiet w t0).
  { split; [exact Hclock | rewrite Hidle; constructor]. }
  destruct (notify_Quiet delay w t0 Hquiet) as [Harmed Hlog].
  destruct gaps as [| gap gaps].
  - change (burst delay w t0 []) with (notify delay w t0).
    destruct (advance_Armed delay _ _ T Harmed Hdelay) as [Hfired _].
    rewrite Hfired, Hlog.
    unfold lastArrival in HT. simpl in HT.
    destruct (Z.leb_spec (t0 + delay) T); [reflexivity | lia].
  - rewrite burst_cons.
    apply Forall_cons in Hgaps as [Hgap Hgaps].
    destruct (spaced_after_armed delay gaps Hdelay Hgaps
                (notify delay w t0) t0 (t0 + gap) Harmed ltac:(lia))
      as [Hlast Hspaced].
    destruct (advance_Armed delay _ _ T Hlast Hdelay) as [Hfired _].
    rewrite Hfired, Hspaced, Hlog.
    unfold lastArrival in HT. simpl in HT. fold (lastArrival (t0 + gap) gaps) in HT.
    destruct (Z.leb_spec (lastArrival (t0 + gap) gaps + delay) T); [| lia].
    change (arrivals t0 (gap :: gaps)) with (t0 :: arrivals (t0 + gap) gaps).
    rewrite (arrivals_split (t0 + gap) gaps) at 2.
    cbn [map]. rewrite map_app, <- !app_assoc. reflexivity.
Qed.

Lemma spaced_notifications_each_refresh_witness :
  refreshed (advance 2000 (burst 300 (initialWorld 0) 0 [301; 500]))
  = refreshed (initialWorld 0)
    ++ map (fun t => t + 300) (arrivals 0 [301; 500]).
Proof.
  apply (spaced_notifications_each_refresh 300 (initialWorld 0) 0 [301; 500] 2000).
  - lia.
  - simpl. lia.
  - reflexivity.
  - repeat constructor; lia.
  - vm_compute. discriminate.
Defined.

Lemma foldl_runCallbackAt_fields due :
  forall w,
    timers (foldl runCallbackAt w due) = timers w
    /\ debounceTimer (foldl runCallbackAt w due) = debounceTimer w.
Proof.
  induction due as [| timer due IH]; intros w; simpl; [split; reflexivity |].
  destruct (IH (runCallbackAt w timer)) as [Htimers Hfield].
  rewrite Htimers, Hfield. split; reflexivity.
Qed.

Lemma advance_fields t w :
  timers (advance t w) = filter (fun timer => t < snd timer) (timers w)
  /\ debounceTimer (advance t w) = debounceTimer w.
Proof.
  unfold advance. cbn [timers debounceTimer].
  match goal with
  | |- context [foldl runCallbackAt ?w0 ?due] =>
      destruct (foldl_runCallbackAt_fields due w0) as [Htimers Hfield]
  end.
  rewrite Htimers, Hfield. split; reflexivity.
Qed.

(** The state of the timeouts that the invariant speaks of. *)
Lemma debouncedRefresh_fields delay w :
  Forall (fun timer => debounceTimer w = Some (fst timer)) (timers w) ->
  timers (debouncedRefresh delay w) = [(nextHandle w, clock w + delay)]
  /\ debounceTimer (debouncedRefresh delay w) = Some (nextHandle w).
Proof.
  intros Hheld. unfold debouncedRefresh.
  destruct (debounceTimer w) as [handle |] eqn:Hfield;
    unfold setTimeout, clearTimeout;
    cbn [timers debounceTimer clock nextHandle].
  - rewrite filter_none; [split; reflexivity |].
    eapply Forall_impl; [exact Hheld |]. simpl. intros timer Hsame Hdiff.
    congruence.
  - destruct Hheld as [| timer rest Hsame _]; [split; reflexivity |].
    discriminate.
Qed.

Lemma Forall_filter_keep {A} (P Q : A -> Prop) `{forall x, Decision (Q x)}
    (l : list A) :
  Forall P l -> Forall P (filter Q l).
Proof.
  induction 1 as [| x l Hx _ IH]; [constructor |].
  rewrite filter_cons. destruct (decide (Q x)); [constructor |]; assumption.
Qed.

Lemma length_filter_le {A} (Q : A -> Prop) `{forall x, Decision (Q x)}
    (l : list A) :
  (length (filter Q l) <= length l)%nat.
Proof.
  induction l as [| x l IH]; [reflexivity |].
  rewrite filter_cons. destruct (decide (Q x)); simpl; lia.
Qed.

Lemma TimeoutsTidy_advance t w : TimeoutsTidy w -> TimeoutsTidy (advance t w).
Proof.
  intros [Hlen Hheld]. destruct (advance_fields t w) as [Htimers Hfield].
  split; rewrite Htimers.
  - etransitivity; [apply length_filter_le | exact Hlen].
  - rewrite Hfield. apply Forall_filter_keep, Hheld.
Qed.

Lemma TimeoutsTidy_debouncedRefresh delay w :
  TimeoutsTidy w -> TimeoutsTidy (debouncedRefresh delay w).
Proof.
  intros [_ Hheld].
  destruct (debouncedRefresh_fields delay w Hheld) as [Htimers Hfield].
  split; rewrite Htimers; [simpl; lia |].
  rewrite Hfield. repeat constructor.
Qed.

Lemma TimeoutsTidy_onFileChanged delay uri fileName changeType w :
  TimeoutsTidy w ->
  TimeoutsTidy (onFileChanged delay uri fileName changeType w).
Proof.
  intros Htidy. unfold onFileChanged.
  destruct (skipped fileName); [exact Htidy |].
  apply TimeoutsTidy_debouncedRefresh. exact Htidy.
Qed.

Lemma Tidy_onWorld f s :
  (TimeoutsTidy (world s) -> TimeoutsTidy (f (world s))) ->
  Tidy s -> Tidy (onWorld f s).
Proof.
  intros Hf [Hlen [Hheld Hintervals]].
  destruct (Hf (conj Hlen Hheld)) as [Hlen' Hheld'].
  split; [exact Hlen' |]. split; [exact Hheld' | exact Hintervals].
Qed.

Lemma setupAutoRefresh_fields interval s :
  Forall (fun iv => refreshTimer s = Some (fst iv)) (intervals s) ->
  world (setupAutoRefresh interval s) = world s
  /\ intervals (setupAutoRefresh interval s) =
     (if 0 <? interval then [(nextInterval s, interval * 1000)] else [])
  /\ Forall (fun iv => refreshTimer (setupAutoRefresh interval s)
                       = Some (fst iv))
            (intervals (setupAutoRefresh interval s)).
Proof.
  intros Hheld. unfold setupAutoRefresh.
  assert (Hcleared :
    intervals (match refreshTimer s with
               | Some handle => clearInterval handle s
               | None => s
               end) = []).
  { destruct (refreshTimer s) as [handle |] eqn:Hfield;
      cbn [clearInterval intervals].
    - apply filter_none. eapply Forall_impl; [exact Hheld |].
      simpl. intros iv Hsame Hdiff. congruence.
    - destruct Hheld as [| iv rest Hsame _]; [reflexivity | discriminate]. }
  destruct (refreshTimer s) as [handle |]; destruct (0 <? interval);
    cbn [clearInterval world intervals refreshTimer nextInterval] in *;
    rewrite ?Hcleared; repeat split; repeat constructor.
Qed.

Lemma Tidy_setupAutoRefresh interval s :
  Tidy s -> Tidy (setupAutoRefresh interval s).
Proof.
  intros [Hlen [Hheld [_ Hintervals]]].
  destruct (setupAutoRefresh_fields interval s Hintervals)
    as [Hworld [Htable Hheld']].
  unfold Tidy. rewrite Hworld.
  split; [exact Hlen |]. split; [exact Hheld |]. split; [| exact Hheld'].
  rewrite Htable. destruct (0 <? interval); simpl; lia.
Qed.

Lemma Tidy_setupFileWatchers folders enabled patterns s :
  Tidy s -> Tidy (setupFileWatchers folders enabled patterns s).
Proof.
  intros Htidy. unfold setupFileWatchers, clearFileWatchers.
  destruct (negb folders || negb enabled); exact Htidy.
Qed.

Lemma TimeoutsTidy_refresh w : TimeoutsTidy w -> TimeoutsTidy (refresh w).
Proof. intros Htidy. exact Htidy. Qed.

Lemma Reachable_Tidy s : Reachable s -> Tidy s.
Proof.
  induction 1 as [t interval folders enabled patterns | s s' _ IH Hstep].
  - unfold initialSession.
    apply Tidy_setupFileWatchers, Tidy_setupAutoRefresh.
    repeat split; simpl; (lia || constructor).
  - destruct Hstep.
    + apply Tidy_onWorld; [apply TimeoutsTidy_advance | exact IH].
    + apply Tidy_onWorld; [intros Htidy; exact Htidy | exact IH].
    + apply Tidy_onWorld; [apply TimeoutsTidy_onFileChanged | exact IH].
    + apply Tidy_onWorld; [apply TimeoutsTidy_debouncedRefresh | exact IH].
    + apply Tidy_onWorld; [apply TimeoutsTidy_refresh | exact IH].
    + apply Tidy_onWorld; [intros Htidy; exact Htidy | exact IH].
    + apply Tidy_onWorld; [intros Htidy; exact Htidy | exact IH].
    + apply Tidy_onWorld; [apply TimeoutsTidy_refresh |].
      apply Tidy_setupFileWatchers, Tidy_setupAutoRefresh, IH.
    + apply Tidy_onWorld; [apply TimeoutsTidy_debouncedRefresh |].
      apply Tidy_setupFileWatchers, IH.
Qed.

(** X21.  Whatever happens in a session (time passing, file changes, manual
    refreshes, changes of the view, of the configuration or of the
    workspace folders), at most one debounce timeout and at most one
    auto-refresh interval are pending, and each is the one whose handle
    the provider holds. *)
Theorem session_keeps_one_timer_of_each_kind :
  forall s,
    Reachable s ->
    (length (timers (world s)) <= 1)%nat
    /\ (forall handle due,
          (handle, due) ∈ timers (world s) ->
          debounceTimer (world s) = Some handle)
    /\ (length (intervals s) <= 1)%nat
    /\ (forall handle period,
          (handle, period) ∈ intervals s -> refreshTimer s = Some handle).
Proof.
  intros s Hreach.
  destruct (Reachable_Tidy s Hreach) as [Hlen [Hheld [Hlen' Hheld']]].
  rewrite Forall_forall in Hheld, Hheld'.
  split; [exact Hlen |]. split; [| split; [exact Hlen' |]].
  - intros handle due Hin. apply (Hheld _ Hin).
  - intros handle period Hin. apply (Hheld' _ Hin).
Qed.

(** X22.  In a session, [setupAutoRefresh] leaves the configured interval and
    nothing else: one timer with a period of [interval] seconds when the
    interval is positive, none when it is zero or negative. *)
Theorem auto_refresh_follows_configuration :
  forall s interval,
    Reachable s ->
    intervals (setupAutoRefresh interval s) =
    if 0 <? interval then [(nextInterval s, interval * 1000)] else [].
Proof.
  intros s interval Hreach.
  destruct (Reachable_Tidy s Hreach) as [_ [_ [_ Hheld]]].
  apply (setupAutoRefresh_fields interval s Hheld).
Qed.

(** X23.  After [dispose] nothing of the session is left to run: no timeout,
    no interval and no watcher, so that no refresh happens any more as
    time passes. *)
Theorem dispose_leaves_nothing_pending :
  forall s T,
    Reachable s ->
    timers (world (dispose s)) = []
    /\ intervals (dispose s) = []
    /\ fileWatchers (dispose s) = []
    /\ refreshed (advance T (world (dispose s))) = refreshed (world s).
Proof.
  intros s T Hreach.
  destruct (Reachable_Tidy s Hreach) as [_ [Htimeouts [_ Hintervals]]].
  assert (Hno_interval :
    intervals (match refreshTimer s with
               | Some handle => clearInterval handle s
               | None => s
               end) = []
    /\ world (match refreshTimer s with
              | Some handle => clearInterval handle s
              | None => s
              end) = world s).
  { destruct (refreshTimer s) as [handle |] eqn:Hfield;
      cbn [clearInterval intervals world].
    - split; [| reflexivity]. apply filter_none.
      eapply Forall_impl; [exact Hintervals |].
      simpl. intros iv Hsame Hdiff. congruence.
    - split; [| reflexivity].
      destruct Hintervals as [| iv rest Hsame _]; [reflexivity | discriminate]. }
  destruct Hno_interval as [Hno_interval Hworld].
  unfold dispose. cbv zeta.
  set (s1 := match refreshTimer s with
             | Some handle => clearInterval handle s
             | None => s
             end) in *.
  rewrite Hworld.
  assert (Hno_timeout :
    timers (world (match debounceTimer (world s) with
                   | Some handle => onWorld (clearTimeout handle) s1
                   | None => s1
                   end)) = []
    /\ refreshed (world (match debounceTimer (world s) with
                         | Some handle => onWorld (clearTimeout handle) s1
                         | None => s1
                         end)) = refreshed (world s)
    /\ intervals (match debounceTimer (world s) with
                  | Some handle => onWorld (clearTimeout handle) s1
                  | None => s1
                  end) = []).
  { destruct (debounceTimer (world s)) as [handle |] eqn:Hfield;
      cbn [onWorld world intervals clearTimeout timers refreshed];
      rewrite ?Hworld, ?Hno_interval.
    - repeat split. apply filter_none.
      eapply Forall_impl; [exact Htimeouts |].
      simpl. intros timer Hsame Hdiff. congruence.
    - repeat split.
      destruct Htimeouts as [| timer rest Hsame _]; [reflexivity | discriminate]. }
  destruct Hno_timeout as [Hno_timeout [Hlog Hno_interval']].
  cbn [clearFileWatchers world intervals fileWatchers].
  split; [exact Hno_timeout |]. split; [exact Hno_interval' |].
  split; [reflexivity |].
  rewrite advance_not_due by (rewrite Hno_timeout; constructor).
  cbn [refreshed]. exact Hlog.
Qed.

Lemma session_keeps_one_timer_of_each_kind_witness :
  let s := onWorld (onFileChanged 300 Examples.file_a "/w/a" changed)
             (initialSession 0 5 true true ["**/*"%string]) in
  (length (timers (world s)) <= 1)%nat
  /\ (forall handle due,
        (handle, due) ∈ timers (world s) ->
        debounceTimer (world s) = Some handle)
  /\ (length (intervals s) <= 1)%nat
  /\ (forall handle period,
        (handle, period) ∈ intervals s -> refreshTimer s = Some handle).
Proof.
  apply (session_keeps_one_timer_of_each_kind
           (onWorld (onFileChanged 300 Examples.file_a "/w/a" changed)
              (initialSession 0 5 true true ["**/*"%string]))).
  apply (reach_step (initialSession 0 5 true true ["**/*"%string]));
    [apply reach_initial | apply step_fileChanged].
Defined.

Lemma auto_refresh_follows_configuration_witness :
  intervals (setupAutoRefresh 0 (initialSession 0 5 true true ["**/*"%string]))
  = [].
Proof.
  apply (auto_refresh_follows_configuration
           (initialSession 0 5 true true ["**/*"%string]) 0).
  apply reach_initial.
Defined.

Lemma dispose_leaves_nothing_pending_witness :
  let s := onWorld (onFileChanged 300 Examples.file_a "/w/a" changed)
             (initialSession 0 5 true true ["**/*"%string]) in
  timers (world (dispose s)) = []
  /\ intervals (dispose s) = []
  /\ fileWatchers (dispose s) = []
  /\ refreshed (advance 100000 (world (dispose s))) = refreshed (world s).
Proof.
  apply (dispose_leaves_nothing_pending
           (onWorld (onFileChanged 300 Examples.file_a "/w/a" changed)
              (initialSession 0 5 true true ["**/*"%string])) 100000).
  apply (reach_step (initialSession 0 5 true true ["**/*"%string]));
    [apply reach_initial | apply step_fileChanged].
Defined.

Lemma endsWith_append prefix suffix : endsWith (prefix +:+ suffix) suffix = true.
Proof.
  induction prefix as [| c prefix IH].
  - rewrite append_nil. destruct suffix; cbn [endsWith];
      rewrite bool_decide_eq_true_2 by reflexivity; reflexivity.
  - rewrite append_cons. cbn [endsWith].
    destruct (bool_decide _); [reflexivity | exact IH].
Qed.

(** X24.  A notification for a file whose lower-cased path ends in one of the
    skipped extensions or names is ignored altogether: the cache keeps
    the entry of that file, and no refresh is scheduled. *)
Theorem noise_files_are_ignored :
  forall delay uri prefix name changeType w,
    name ∈ skipExtensions ++ skipFiles ->
    onFileChanged delay uri (prefix +:+ name) changeType w = w.
Proof.
  intros delay uri prefix name changeType w Hname.
  unfold onFileChanged.
  assert (Hskipped : skipped (prefix +:+ name) = true); [| rewrite Hskipped; reflexivity].
  unfold skipped. apply orb_true_iff.
  apply elem_of_app in Hname as [Hext | Hfile]; [left | right];
    apply existsb_exists; exists name;
    (split; [apply list_elem_of_In; assumption | apply endsWith_append]).
Qed.

Lemma noise_files_are_ignored_witness :
  onFileChanged 300 Examples.file_a ("/w/yarn" +:+ ".lock") changed
    (initialWorld 0)
  = initialWorld 0.
Proof.
  apply (noise_files_are_ignored 300 Examples.file_a "/w/yarn" ".lock"
           changed (initialWorld 0)).
  unfold skipExtensions, skipFiles. cbn [app]. repeat constructor.
Defined.
